(** * Distributed leaderboard server: the engine and the session protocol

    A shallow embedding of [server.py]: the [LeaderboardEngine] (score
    dictionary with last-write-wins updates, ranking and statistics), the
    request dispatcher [ClientHandler._handle] and the reading loop
    [ClientHandler.run], followed by the properties stated about them.

    Python values are modelled as the interpreter has them: [int] is [Z],
    [float] is the binary64 type [PrimFloat.float], [str] is the string of
    its UTF-8 bytes, a [dict] is an association list in insertion order, and
    an exception is a value of [pyexc] threaded through a state-and-error
    monad over the engine. *)

From Stdlib Require Import ZArith List String Ascii Bool Lia.
From Stdlib Require Import Permutation Sorted Floats.
Import ListNotations.

Open Scope Z_scope.

(** ** Constants *)

Definition TOP_N : Z := 10.

(** ** Exceptions *)

(** The exception classes the handler can meet.  [JSONDecodeError] stands
    for whatever [json.loads] raises. *)
Inductive pyexc : Type :=
| JSONDecodeError
| AttributeError
| KeyError (key : string)
| TypeError
| ValueError
| OverflowError
| ZeroDivisionError.

(** ** Python floats *)

Module PyFloat.

(** [a > b]. *)
Definition gt (a b : float) : bool := PrimFloat.ltb b a.

(** [a <= b]. *)
Definition le (a b : float) : bool := PrimFloat.leb a b.

(** [float(z)] for an [int]: rounded to nearest-even; [OverflowError] from
    the first integer that rounds to 2^1024 on. *)
Definition of_int (z : Z) : pyexc + float :=
  if Z.abs z <? 2 ^ 1024 - 2 ^ 970
  then inr (SF2Prim (binary_normalize prec emax z 0 false))
  else inl OverflowError.

(** [int(x)] for a [float]: truncation toward zero. *)
Definition to_int (x : float) : pyexc + Z :=
  match Prim2SF x with
  | S754_nan => inl ValueError
  | S754_infinity _ => inl OverflowError
  | S754_zero _ => inr 0
  | S754_finite s m e => inr (cond_Zopp s (Z.shiftl (Zpos m) e))
  end.

(** The integer a float is equal to, when there is one. *)
Definition as_integer (x : float) : option Z :=
  match Prim2SF x with
  | S754_zero _ => Some 0
  | S754_finite s m e =>
      if (0 <=? e) || (Zpos m mod 2 ^ (- e) =? 0)
      then Some (cond_Zopp s (Z.shiftl (Zpos m) e))
      else None
  | _ => None
  end.

(** The integer nearest to [n / d] for [0 <= n] and [0 < d], ties to even. *)
Definition round_half_even (n d : Z) : Z :=
  let q := n / d in
  match 2 * (n mod d) ?= d with
  | Lt => q
  | Gt => q + 1
  | Eq => if Z.even q then q else q + 1
  end.

(** [round(x, ndigits)] for [0 <= ndigits]: the exact value of [x] is
    rounded half-even to [ndigits] decimals and the decimal is converted
    back to the nearest float. *)
Definition round (x : float) (ndigits : nat) : float :=
  match Prim2SF x with
  | S754_finite s m e =>
      if 0 <=? e then x
      else
        let scale := 10 ^ Z.of_nat ndigits in
        match round_half_even (Zpos m * scale) (2 ^ (- e)) with
        | Zpos k =>
            SF2Prim (SFdiv prec emax (S754_finite s k 0)
                                     (S754_finite false (Z.to_pos scale) 0))
        | _ => SF2Prim (S754_zero s)
        end
  | _ => x
  end.

(** [max(x, 1)]: the second argument wins only when it is greater.  The
    [int] 1 is given as the float 1.0, which divides to the same float. *)
Definition max1 (x : float) : float :=
  if gt 1 x then 1%float else x.

(** [a / b] on floats. *)
Definition truediv (a b : float) : pyexc + float :=
  if PrimFloat.eqb b 0 then inl ZeroDivisionError else inr (a / b)%float.

(** [z / b] for an [int] numerator: the numerator is converted first. *)
Definition int_truediv (z : Z) (b : float) : pyexc + float :=
  match of_int z with
  | inl e => inl e
  | inr a => truediv a b
  end.

End PyFloat.

(** ** Decoded JSON *)

#[local] Set Warnings "-register-all".

(** What [json.loads] returns: [None], [bool], [int], [float], [str],
    [list] and [dict] with string keys. *)
Inductive json : Type :=
| JNull
| JBool (b : bool)
| JInt (z : Z)
| JFloat (f : float)
| JStr (s : string)
| JArr (items : list json)
| JObj (fields : list (string * json)).

(** [msg.get(key)] on a decoded object. *)
Fixpoint lookup (key : string) (fields : list (string * json)) : option json :=
  match fields with
  | [] => None
  | (k, v) :: rest => if String.eqb key k then Some v else lookup key rest
  end.

(** ** Dictionary keys *)

(** A hashable value up to Python's key equality: [True == 1 == 1.0] is one
    key, so numbers with an integer value are [KInt]; [KFloat] holds the
    remaining floats.  NaN is among them and is one key like the others:
    [json.loads] returns the same NaN object for every [NaN] literal, and a
    dictionary finds a key by identity before it compares. *)
Inductive pykey : Type :=
| KNone
| KInt (z : Z)
| KFloat (f : float)
| KStr (s : string).

Definition key_eqb (a b : pykey) : bool :=
  match a, b with
  | KNone, KNone => true
  | KInt x, KInt y => Z.eqb x y
  | KFloat x, KFloat y => Leibniz.eqb x y
  | KStr x, KStr y => String.eqb x y
  | _, _ => false
  end.

(** ** The leaderboard engine *)

Module Engine.

(** The value stored per player: [{"score": .., "name": .., "ts": ..}]. *)
Record record : Type := mkRecord {
  score : Z;
  name : json;
  ts : float
}.

(** [self._scores], [self._update_count], [self._start_time].  Every
    method body runs under [self._lock], so a method is one step on this
    state. *)
Record engine : Type := mkEngine {
  _scores : list (pykey * record);
  _update_count : Z;
  _start_time : float
}.

(** [LeaderboardEngine()] created when the clock reads [now]. *)
Definition init (now : float) : engine :=
  {| _scores := []; _update_count := 0; _start_time := now |}.

(** [d.get(k)]. *)
Fixpoint dict_get (k : pykey) (d : list (pykey * record)) : option record :=
  match d with
  | [] => None
  | (k', v) :: rest => if key_eqb k k' then Some v else dict_get k rest
  end.

(** [d[k] = v]: an existing key keeps its place, a new one goes last. *)
Fixpoint dict_set (k : pykey) (v : record) (d : list (pykey * record))
  : list (pykey * record) :=
  match d with
  | [] => [(k, v)]
  | (k', v') :: rest =>
      if key_eqb k k' then (k', v) :: rest else (k', v') :: dict_set k v rest
  end.

(** *** The monad of engine methods: the engine is threaded, an exception
    keeps the engine as it was when raised. *)
Definition M (A : Type) : Type := engine -> (pyexc + A) * engine.

Definition ret {A} (a : A) : M A := fun self => (inr a, self).

Definition raise {A} (e : pyexc) : M A := fun self => (inl e, self).

Definition bind {A B} (m : M A) (k : A -> M B) : M B :=
  fun self =>
    match m self with
    | (inl e, self') => (inl e, self')
    | (inr a, self') => k a self'
    end.

Definition get_self : M engine := fun self => (inr self, self).

Definition put_self (self' : engine) : M unit := fun _ => (inr tt, self').

(** A pure computation that may raise. *)
Definition lift {A} (r : pyexc + A) : M A := fun self => (r, self).

(** [try: m  except Exception as e: h e]. *)
Definition try_except {A} (m : M A) (h : pyexc -> M A) : M A :=
  fun self =>
    match m self with
    | (inl e, self') => h e self'
    | (inr a, self') => (inr a, self')
    end.

Declare Scope py_scope.
Delimit Scope py_scope with py.
Notation "x <- c ;; k" := (bind c (fun x => k))
  (at level 61, c at next level, right associativity) : py_scope.
Notation "c ;;; k" := (bind c (fun _ => k))
  (at level 61, right associativity) : py_scope.
Open Scope py_scope.

(** *** update *)

Inductive update_status : Type := accepted | rejected.

(** [{"status": .., "current_score": ..}]. *)
Record update_result : Type := mkResult {
  status : update_status;
  current_score : Z
}.

Definition update (player_id : pykey) (name : json) (score : Z)
                  (timestamp : float) : M update_result :=
  self <- get_self ;;
  let existing := dict_get player_id (_scores self) in
  let store : M update_result :=
    put_self {| _scores := dict_set player_id
                             {| score := score; name := name; ts := timestamp |}
                             (_scores self);
                _update_count := _update_count self;
                _start_time := _start_time self |} ;;;
    self <- get_self ;;
    put_self {| _scores := _scores self;
                _update_count := _update_count self + 1;
                _start_time := _start_time self |} ;;;
    ret {| status := accepted; current_score := score |} in
  match existing with
  | None => store
  | Some old =>
      if PyFloat.gt timestamp (ts old) then store
      else ret {| status := rejected; current_score := Engine.score old |}
  end.

(** *** get_top *)

(** One row of a ranking:
    [{"rank": .., "player_id": .., "name": .., "score": ..}]. *)
Module Entry.
Record t : Type := mk {
  rank : Z;
  player_id : pykey;
  name : json;
  score : Z
}.
Definition set_rank (i : Z) (e : t) : t :=
  {| rank := i; player_id := player_id e; name := name e; score := score e |}.
End Entry.

(** [sorted(l, key=lambda x: x["score"], reverse=True)]: a stable sort, so
    rows of equal score keep the order they have in [l]. *)
Fixpoint insert_desc (x : Entry.t) (l : list Entry.t) : list Entry.t :=
  match l with
  | [] => [x]
  | y :: l' =>
      if Entry.score y <=? Entry.score x then x :: y :: l'
      else y :: insert_desc x l'
  end.

Definition sorted_desc (l : list Entry.t) : list Entry.t :=
  fold_right insert_desc [] l.

(** [l[:n]], for a negative [n] too. *)
Definition slice_to {A} (n : Z) (l : list A) : list A :=
  if 0 <=? n then firstn (Z.to_nat n) l
  else firstn (List.length l - Z.to_nat (- n)) l.

(** [for i, e in enumerate(l, i0): e["rank"] = i]. *)
Fixpoint assign_ranks (i : Z) (l : list Entry.t) : list Entry.t :=
  match l with
  | [] => []
  | e :: l' => Entry.set_rank i e :: assign_ranks (i + 1) l'
  end.

(** The rows built from [self._scores.items()], rank still 0: new
    dictionaries, so the ranks are written into them and never into a
    stored record. *)
Definition rows (d : list (pykey * record)) : list Entry.t :=
  map (fun '(pid, d) =>
         {| Entry.rank := 0; Entry.player_id := pid;
            Entry.name := name d; Entry.score := score d |}) d.

(** The loop writes the rank into the rows of [ranked[:n]], which are the
    very objects the second [ranked[:n]] returns. *)
Definition get_top (n : Z) : M (list Entry.t) :=
  self <- get_self ;;
  let ranked := sorted_desc (rows (_scores self)) in
  ret (assign_ranks 1 (slice_to n ranked)).

(** *** get_player *)

Definition get_player (player_id : pykey) : M (option record) :=
  self <- get_self ;;
  ret (dict_get player_id (_scores self)).

(** *** stats *)

Record stats_t : Type := mkStats {
  total_players : Z;
  total_updates : Z;
  uptime_seconds : float;
  updates_per_sec : float
}.

(** [now] is what [time.time()] returns in this call. *)
Definition stats (now : float) : M stats_t :=
  self <- get_self ;;
  let elapsed := (now - _start_time self)%float in
  rate <- lift (PyFloat.int_truediv (_update_count self) (PyFloat.max1 elapsed)) ;;
  ret {| total_players := Z.of_nat (List.length (_scores self));
         total_updates := _update_count self;
         uptime_seconds := PyFloat.round elapsed 2;
         updates_per_sec := PyFloat.round rate 2 |}.

End Engine.

(** ** The client handler *)

Module Handler.
Import Engine.

(** The commands of the class docstring. *)
Definition known_commands : list string :=
  ["UPDATE"; "GET_TOP"; "GET_PLAYER"; "STATS"; "PING"]%string.

(** The library functions the handler calls on text, taken as they are.
    [json_loads] and the two parsers give [None] where Python raises. *)
Record runtime : Type := mkRuntime {
  json_loads : string -> option json;
  str_upper : string -> string;
  str_strip : string -> string;
  int_of_str : string -> option Z;
  float_of_str : string -> option float
}.

(** What the clock functions return during one call of [_handle]:
    [time.time()] and the two readings of [time.perf_counter()]. *)
Record clock : Type := mkClock {
  time_time : float;
  perf_t0 : float;
  perf_t1 : float
}.

(** The [data] of an ok response, one shape per command; [ErrorData m] is
    [{"error": m}]. *)
Inductive payload : Type :=
| UpdateData (result : update_result) (top : list Entry.t)
| TopData (top : list Entry.t)
| PlayerData (p : record)
| StatsData (s : stats_t)
| PongData (server_time : float)
| ErrorData (message : string).

(** [{"status": "ok", "latency_ms": .., "data": ..}] or
    [{"status": "error", "message": str(e)}]. *)
Inductive response : Type :=
| Ok (latency_ms : float) (data : payload)
| Err (e : pyexc).

Definition status_of (r : response) : string :=
  match r with
  | Ok _ _ => "ok"
  | Err _ => "error"
  end.

Section WithRuntime.

Variable rt : runtime.

(** [int(v)]. *)
Definition py_int (v : json) : pyexc + Z :=
  match v with
  | JInt z => inr z
  | JBool b => inr (if b then 1 else 0)
  | JFloat f => PyFloat.to_int f
  | JStr s =>
      match int_of_str rt s with
      | Some z => inr z
      | None => inl ValueError
      end
  | JNull | JArr _ | JObj _ => inl TypeError
  end.

(** [float(v)]. *)
Definition py_float (v : json) : pyexc + float :=
  match v with
  | JFloat f => inr f
  | JInt z => PyFloat.of_int z
  | JBool b => inr (if b then 1 else 0)%float
  | JStr s =>
      match float_of_str rt s with
      | Some f => inr f
      | None => inl ValueError
      end
  | JNull | JArr _ | JObj _ => inl TypeError
  end.

(** The dictionary key of a decoded value; lists and objects are
    unhashable. *)
Definition hash_key (v : json) : pyexc + pykey :=
  match v with
  | JNull => inr KNone
  | JBool b => inr (KInt (if b then 1 else 0))
  | JInt z => inr (KInt z)
  | JFloat f =>
      match PyFloat.as_integer f with
      | Some z => inr (KInt z)
      | None => inr (KFloat f)
      end
  | JStr s => inr (KStr s)
  | JArr _ | JObj _ => inl TypeError
  end.

(** [msg[key]]. *)
Definition item (fields : list (string * json)) (key : string) : pyexc + json :=
  match lookup key fields with
  | Some v => inr v
  | None => inl (KeyError key)
  end.

(** [msg.get(key, default)]. *)
Definition get_default (fields : list (string * json)) (key : string)
                       (default : json) : json :=
  match lookup key fields with
  | Some v => v
  | None => default
  end.

(** [msg.get("cmd", "").upper()], [msg] being whatever was decoded. *)
Definition command (msg : json) : pyexc + string :=
  match msg with
  | JObj fields =>
      match get_default fields "cmd" (JStr EmptyString) with
      | JStr s => inr (str_upper rt s)
      | _ => inl AttributeError
      end
  | _ => inl AttributeError
  end.

Definition fields_of (msg : json) : list (string * json) :=
  match msg with
  | JObj fields => fields
  | _ => []
  end.

(** The key [player_id] is looked up under: the engine hashes it on entry,
    before it reads or writes anything. *)
Definition key_of (player_id : json) : M pykey :=
  lift (hash_key player_id).

(** The branches of [_handle] between [cmd = ...] and [return]. *)
Definition dispatch (clk : clock) (msg : json) (cmd : string) : M payload :=
  let fields := fields_of msg in
  if String.eqb cmd "UPDATE" then
    player_id <- lift (item fields "player_id") ;;
    default_name <- lift (item fields "player_id") ;;
    let name := get_default fields "name" default_name in
    raw_score <- lift (item fields "score") ;;
    score <- lift (py_int raw_score) ;;
    timestamp <- lift (py_float (get_default fields "ts" (JFloat (time_time clk)))) ;;
    k <- key_of player_id ;;
    result <- update k name score timestamp ;;
    top <- get_top TOP_N ;;
    ret (UpdateData result top)
  else if String.eqb cmd "GET_TOP" then
    n <- lift (py_int (get_default fields "n" (JInt TOP_N))) ;;
    top <- get_top n ;;
    ret (TopData top)
  else if String.eqb cmd "GET_PLAYER" then
    player_id <- lift (item fields "player_id") ;;
    k <- key_of player_id ;;
    p <- get_player k ;;
    match p with
    | Some d => ret (PlayerData d)
    | None => ret (ErrorData "player not found")
    end
  else if String.eqb cmd "STATS" then
    s <- stats (time_time clk) ;;
    ret (StatsData s)
  else if String.eqb cmd "PING" then
    ret (PongData (time_time clk))
  else
    ret (ErrorData ("unknown command: " ++ cmd)).

(** [round((time.perf_counter() - t0) * 1000, 3)]. *)
Definition latency (clk : clock) : float :=
  PyFloat.round ((perf_t1 clk - perf_t0 clk) * 1000)%float 3.

Definition _handle (clk : clock) (raw : string) : M response :=
  try_except
    (msg <- lift (match json_loads rt raw with
                  | Some v => inr v
                  | None => inl JSONDecodeError
                  end) ;;
     cmd <- lift (command msg) ;;
     data <- dispatch clk msg cmd ;;
     ret (Ok (latency clk) data))
    (fun e => ret (Err e)).

(** The frame is answered with an error envelope and the engine is left
    as it was. *)
Definition rejects (clk : clock) (raw : string) (self : engine) : Prop :=
  exists e, _handle clk raw self = (inr (Err e), self).

(** Lists and objects cannot be dictionary keys. *)
Definition unhashable (v : json) : bool :=
  match v with
  | JArr _ | JObj _ => true
  | _ => false
  end.

(** The fields a command cannot do without. *)
Definition required_fields : list (string * string) :=
  [("UPDATE", "player_id"); ("UPDATE", "score");
   ("GET_PLAYER", "player_id")]%string.

(** The frames the handler refuses: text that does not decode, a decoded
    value that is no object or whose [cmd] is no string, a request without
    a required field, an UPDATE whose score has no integer value, and a
    [player_id] that cannot be hashed. *)
Inductive malformed (raw : string) : Prop :=
| undecodable :
    json_loads rt raw = None -> malformed raw
| not_a_request (msg : json) (e : pyexc) :
    json_loads rt raw = Some msg -> command msg = inl e -> malformed raw
| field_missing (msg : json) (cmd key : string) :
    json_loads rt raw = Some msg -> command msg = inr cmd ->
    In (cmd, key) required_fields ->
    lookup key (fields_of msg) = None -> malformed raw
| score_not_integer (msg : json) (v : json) (e : pyexc) :
    json_loads rt raw = Some msg -> command msg = inr "UPDATE"%string ->
    lookup "score" (fields_of msg) = Some v ->
    py_int v = inl e -> malformed raw
| player_id_unhashable (msg : json) (cmd : string) (v : json) :
    json_loads rt raw = Some msg -> command msg = inr cmd ->
    cmd = "UPDATE"%string \/ cmd = "GET_PLAYER"%string ->
    lookup "player_id" (fields_of msg) = Some v ->
    unhashable v = true -> malformed raw.

(** What the message of an error envelope describes: it is the text of the
    exception [e] that the frame makes the handler raise, which is the
    decoder's for text that does not decode, the one of [.get] or [.upper]
    for a value that is no request, the [KeyError] naming the first
    required field that is missing, the exception of [int] for a score it
    refuses, and the [TypeError] of the dictionary for a [player_id] it
    cannot hash. *)
Definition names_the_fault (clk : clock) (raw : string) (e : pyexc) : Prop :=
  match json_loads rt raw with
  | None => e = JSONDecodeError
  | Some msg =>
      let fields := fields_of msg in
      match command msg with
      | inl err => e = err
      | inr cmd =>
          (cmd = "UPDATE"%string \/ cmd = "GET_PLAYER"%string ->
           lookup "player_id" fields = None ->
           e = KeyError "player_id") /\
          (cmd = "UPDATE"%string ->
           lookup "player_id" fields <> None ->
           lookup "score" fields = None ->
           e = KeyError "score") /\
          (forall v err,
             cmd = "UPDATE"%string ->
             lookup "player_id" fields <> None ->
             lookup "score" fields = Some v -> py_int v = inl err ->
             e = err) /\
          (forall v sv sc t,
             cmd = "UPDATE"%string ->
             lookup "player_id" fields = Some v -> unhashable v = true ->
             lookup "score" fields = Some sv -> py_int sv = inr sc ->
             py_float (get_default fields "ts" (JFloat (time_time clk)))
               = inr t ->
             e = TypeError) /\
          (forall v,
             cmd = "GET_PLAYER"%string ->
             lookup "player_id" fields = Some v -> unhashable v = true ->
             e = TypeError)
      end
  end.

(** The request schema writes [player_id] as a string. *)
Definition player_id_is_text (msg : json) : bool :=
  match lookup "player_id" (fields_of msg) with
  | Some (JStr _) => true
  | _ => false
  end.

(** *** The reading loop *)

(** One connection: the text read and not yet split, the responses written
    to the socket, how many frames were handled, and whether the
    connection is still registered and open. *)
Record session : Type := mkSession {
  buf : string;
  outbox : list response;
  handled : nat;
  is_open : bool
}.

(** What the world supplies to a connection: the clock readings of the
    n-th handled frame and whether writing its response fails. *)
Record world : Type := mkWorld {
  clock_at : nat -> clock;
  send_fails : nat -> bool
}.

Variable w : world.

(** [_send]: a failed write is swallowed. *)
Definition _send (obj : response) (ss : session) : session :=
  {| buf := buf ss;
     outbox := if send_fails w (handled ss) then outbox ss
               else outbox ss ++ [obj];
     handled := S (handled ss);
     is_open := is_open ss |}.

Definition newline : ascii := "010"%char.

(** [line, rest = s.split(newline, 1)] when [s] has a newline. *)
Fixpoint split_newline (s : string) : option (string * string) :=
  match s with
  | EmptyString => None
  | String c s' =>
      if Ascii.eqb c newline then Some (EmptyString, s')
      else match split_newline s' with
           | Some (line, rest) => Some (String c line, rest)
           | None => None
           end
  end.

(** [if line.strip(): self._send(self._handle(line.strip()))]. *)
Definition serve_line (line : string) (ss : session) : M session :=
  let stripped := str_strip rt line in
  if String.eqb stripped EmptyString then ret ss
  else
    resp <- _handle (clock_at w (handled ss)) stripped ;;
    ret (_send resp ss).

(** The inner [while] over the complete lines of the buffer; each turn
    removes a newline, so [fuel] above the buffer's length is never used
    up. *)
Fixpoint drain (fuel : nat) (ss : session) : M session :=
  match fuel with
  | O => ret ss
  | S fuel' =>
      match split_newline (buf ss) with
      | None => ret ss
      | Some (line, rest) =>
          ss' <- serve_line line
                   {| buf := rest; outbox := outbox ss;
                      handled := handled ss; is_open := is_open ss |} ;;
          drain fuel' ss'
      end
  end.

(** What one [recv] gives: text, empty when the peer has closed, or an
    exception (from the socket or from decoding the bytes). *)
Inductive recv_result : Type :=
| Received (chunk : string)
| RecvRaises (e : pyexc).

(** [recv] gave text. *)
Definition has_text (ev : recv_result) : Prop :=
  match ev with
  | Received chunk => chunk <> EmptyString
  | RecvRaises _ => False
  end.

Definition close (ss : session) : session :=
  {| buf := buf ss; outbox := outbox ss; handled := handled ss;
     is_open := false |}.

(** The outer [while True]; when the events end the thread waits in [recv]. *)
Fixpoint reading (events : list recv_result) (ss : session) : M session :=
  match events with
  | [] => ret ss
  | RecvRaises _ :: _ => ret (close ss)
  | Received chunk :: rest =>
      if String.eqb chunk EmptyString then ret (close ss)
      else
        let text := (buf ss ++ chunk)%string in
        ss' <- drain (S (String.length text))
                 {| buf := text; outbox := outbox ss;
                    handled := handled ss; is_open := is_open ss |} ;;
        reading rest ss'
  end.

(** [run]: an exception, from [recv] or from the body, ends the loop, and
    [finally] closes. *)
Definition run (events : list recv_result) : M session :=
  let ss := {| buf := EmptyString; outbox := []; handled := O;
               is_open := true |} in
  try_except (reading events ss) (fun _ => ret (close ss)).

End WithRuntime.

End Handler.

(** ** Histories of updates *)

Module History.
Import Engine.

(** One call [engine.update(player_id, name, score, timestamp)]. *)
Record call : Type := mkCall {
  player_id : pykey;
  name : json;
  score : Z;
  timestamp : float
}.

Definition apply (c : call) : M update_result :=
  update (player_id c) (name c) (score c) (timestamp c).

(** The calls made one after the other, with the result of each. *)
Fixpoint run_updates (calls : list call) : M (list update_result) :=
  match calls with
  | [] => ret []
  | c :: rest =>
      r <- apply c ;;
      rs <- run_updates rest ;;
      ret (r :: rs)
  end.

Definition is_accepted (r : update_result) : bool :=
  match status r with
  | accepted => true
  | rejected => false
  end.

Definition accepted_count (rs : list update_result) : nat :=
  List.length (filter is_accepted rs).

(** The identifiers whose call was accepted. *)
Fixpoint accepted_keys (calls : list call) (rs : list update_result)
  : list pykey :=
  match calls, rs with
  | c :: calls', r :: rs' =>
      if is_accepted r then player_id c :: accepted_keys calls' rs'
      else accepted_keys calls' rs'
  | _, _ => []
  end.

(** The engine after [calls] made to a fresh one, and the identifiers it
    accepted an update for. *)
Definition after (calls : list call) (start : float) : engine :=
  snd (run_updates calls (init start)).

Definition accepted_ids (calls : list call) (start : float) : list pykey :=
  match fst (run_updates calls (init start)) with
  | inr rs => accepted_keys calls rs
  | inl _ => []
  end.

(** Each timestamp greater than the one before. *)
Fixpoint increasing (l : list float) : bool :=
  match l with
  | a :: (b :: _) as rest => PyFloat.gt b a && increasing rest
  | _ => true
  end.

(** What an accepted call stores and answers. *)
Definition stored (c : call) : record :=
  {| Engine.score := score c; Engine.name := name c; ts := timestamp c |}.

Definition accept_of (c : call) : update_result :=
  {| status := accepted; current_score := score c |}.

(** The engine after an accepted write of [c]. *)
Definition written (c : call) (self : engine) : engine :=
  {| _scores := dict_set (player_id c) (stored c) (_scores self);
     _update_count := _update_count self + 1;
     _start_time := _start_time self |}.

End History.

(** ** The ranking contract *)

Module Ranking.
Import Engine.

(** Scores from the first row to the last never go up / always go down. *)
Definition descending (top : list Entry.t) : Prop :=
  StronglySorted (fun a b => Entry.score b <= Entry.score a) top.

Definition strictly_descending (top : list Entry.t) : Prop :=
  StronglySorted (fun a b => Entry.score b < Entry.score a) top.

(** The ranks are 1, 2, ..., k for k rows. *)
Definition ranks_contiguous (top : list Entry.t) : Prop :=
  map Entry.rank top = map Z.of_nat (seq 1 (List.length top)).

(** The rows are players of the dictionary, and no player left out scores
    more than a row. *)
Definition highest_scoring (self : engine) (top : list Entry.t) : Prop :=
  exists rest,
    Permutation (rows (_scores self)) (map (Entry.set_rank 0) top ++ rest) /\
    forall e r, In e top -> In r rest -> Entry.score r <= Entry.score e.

(** The ranking contract with scores strictly descending and the length
    bounded by [min(n, player_count)] for every integer [n]. *)
Definition strict_contract (self : engine) (n : Z) : Prop :=
  exists top,
    get_top n self = (inr top, self) /\
    Z.of_nat (List.length top) <=
      Z.min n (Z.of_nat (List.length (_scores self))) /\
    strictly_descending top /\
    ranks_contiguous top /\
    highest_scoring self top.

(** Two players on 20 points. *)
Definition tie_engine : engine :=
  {| _scores :=
       [(KStr "p1", {| score := 20; name := JStr "Ann"; ts := 1 |});
        (KStr "p2", {| score := 20; name := JStr "Bob"; ts := 2 |})];
     _update_count := 2;
     _start_time := 0 |}.

End Ranking.

(** ** The reported rate *)

Module Rate.
Import Engine.

(** [total_updates / max(uptime_seconds, 1)] over the fields of a report. *)
Definition quotient_of_report (st : stats_t) : pyexc + float :=
  PyFloat.int_truediv (total_updates st) (PyFloat.max1 (uptime_seconds st)).

(** The report counts the players and its rate is that quotient. *)
Definition plain_quotient (self : engine) (now : float) : Prop :=
  exists st,
    stats now self = (inr st, self) /\
    total_players st = Z.of_nat (List.length (_scores self)) /\
    quotient_of_report st = inr (updates_per_sec st).

End Rate.

(** ** Scenarios *)

Module Scenario.
Import Engine Handler.
#[local] Open Scope string_scope.

Definition quote_char : string := String "034"%char EmptyString.

(** A JSON string literal and a JSON object written out as text. *)
Definition text (s : string) : string := (quote_char ++ s ++ quote_char)%string.

Definition member (key value : string) : string :=
  (text key ++ ": " ++ value)%string.

Definition object (members : list string) : string :=
  ("{" ++ String.concat ", " members ++ "}")%string.

(** [{"cmd": "foo"}] *)
Definition frame_foo : string := object [member "cmd" (text "foo")].

(** [{"cmd": "UPDATE", "player_id": 7, "score": 1, "ts": 1}] *)
Definition frame_update_7 : string :=
  object [member "cmd" (text "UPDATE"); member "player_id" "7";
          member "score" "1"; member "ts" "1"].

(** [{"cmd": "GET_PLAYER", "player_id": "p9"}] *)
Definition frame_get_p9 : string :=
  object [member "cmd" (text "GET_PLAYER"); member "player_id" (text "p9")].

(** [{"cmd": "UPDATE", "score": 1}] *)
Definition frame_no_player : string :=
  object [member "cmd" (text "UPDATE"); member "score" "1"].

(** What [json.loads] gives on the frames above; any other text is taken
    as undecodable, as [{oops] is. *)
Definition decoded : list (string * json) :=
  [(frame_foo, JObj [("cmd", JStr "foo")]);
   (frame_update_7,
    JObj [("cmd", JStr "UPDATE"); ("player_id", JInt 7);
          ("score", JInt 1); ("ts", JInt 1)]);
   (frame_get_p9,
    JObj [("cmd", JStr "GET_PLAYER"); ("player_id", JStr "p9")]);
   (frame_no_player, JObj [("cmd", JStr "UPDATE"); ("score", JInt 1)])].

Definition upper_char (c : ascii) : ascii :=
  let n := nat_of_ascii c in
  if (97 <=? n)%nat && (n <=? 122)%nat then ascii_of_nat (n - 32) else c.

Fixpoint upper (s : string) : string :=
  match s with
  | EmptyString => EmptyString
  | String c s' => String (upper_char c) (upper s')
  end.

Definition is_space (c : ascii) : bool :=
  let n := nat_of_ascii c in
  ((9 <=? n)%nat && (n <=? 13)%nat) || ((28 <=? n)%nat && (n <=? 32)%nat).

Fixpoint lstrip (s : string) : string :=
  match s with
  | EmptyString => EmptyString
  | String c s' => if is_space c then lstrip s' else s
  end.

Fixpoint rstrip (s : string) : string :=
  match s with
  | EmptyString => EmptyString
  | String c s' =>
      match rstrip s' with
      | EmptyString => if is_space c then EmptyString
                       else String c EmptyString
      | r => String c r
      end
  end.

(** The text functions on ASCII text, and the decoder on the frames of this
    module; no frame here carries a number written as a string. *)
Definition ascii_runtime : runtime :=
  {| json_loads := fun raw => lookup raw decoded;
     str_upper := upper;
     str_strip := fun s => rstrip (lstrip s);
     int_of_str := fun _ => None;
     float_of_str := fun _ => None |}.

(** The clock at 5 s, and a frame handled in a quarter of a second. *)
Definition clock_5 : clock :=
  {| time_time := 5; perf_t0 := 100; perf_t1 := 100.25 |}.

Definition quiet_world : world :=
  {| clock_at := fun _ => clock_5; send_fails := fun _ => false |}.

Definition fresh_session : session :=
  {| buf := EmptyString; outbox := []; handled := O; is_open := true |}.

(** One accepted update, three seconds after the start. *)
Definition one_update_engine : engine :=
  {| _scores := [(KStr "p1", {| score := 10; name := JStr "Ann"; ts := 1 |})];
     _update_count := 1;
     _start_time := 0 |}.

(** Scores 10 then 20 for p1, stamped 1 then 2. *)
Definition two_calls : list History.call :=
  [ {| History.player_id := KStr "p1"; History.name := JStr "Ann";
       History.score := 10; History.timestamp := 1 |};
    {| History.player_id := KStr "p1"; History.name := JStr "Ann";
       History.score := 20; History.timestamp := 2 |} ].

(** One update for p9: 30 points, stamped 1. *)
Definition p9_calls : list History.call :=
  [ {| History.player_id := KStr "p9"; History.name := JStr "Zoe";
       History.score := 30; History.timestamp := 1 |} ].

(** The engine that served it from its start at 0. *)
Definition p9_engine : engine := History.after p9_calls 0.

End Scenario.

(** ** Notions the further properties are stated with *)

Module Notions.
Import Engine Handler.

(** The comparison of exponent then mantissa that [SFcompare] makes. *)
Definition lex (e1 : Z) (m1 : positive) (e2 : Z) (m2 : positive) : comparison :=
  match Z.compare e1 e2 with
  | Lt => Lt
  | Gt => Gt
  | Eq => Pos.compare_cont Eq m1 m2
  end.

(** The identifiers are distinct and there are no more players than
    counted updates. *)
Definition well_formed (self : engine) : Prop :=
  NoDup (map fst (_scores self)) /\
  Z.of_nat (List.length (_scores self)) <= _update_count self.

(** Every row ranked: what [get_top] returns for [n] at least the number
    of players. *)
Definition full_ranking (self : engine) : list Entry.t :=
  assign_ranks 1 (sorted_desc (rows (_scores self))).

(** How many rows [l[:n]] keeps of [len]. *)
Definition kept (n : Z) (len : nat) : nat :=
  if 0 <=? n then Nat.min (Z.to_nat n) len else (len - Z.to_nat (- n))%nat.

(** The rows with score [s]. *)
Definition with_score (s : Z) (l : list Entry.t) : list Entry.t :=
  filter (fun e => Entry.score e =? s) l.

(** The chunks in the order received, as one text. *)
Definition join (chunks : list string) : string :=
  fold_right append EmptyString chunks.

(** The session with another buffer. *)
Definition with_buf (b : string) (ss : session) : session :=
  {| buf := b; outbox := outbox ss; handled := handled ss;
     is_open := is_open ss |}.

(** The newline-terminated lines of a text, in order, and the text after
    its last newline. *)
Fixpoint lines_from (cur s : string) : list string :=
  match s with
  | EmptyString => []
  | String c s' =>
      if Ascii.eqb c newline then cur :: lines_from EmptyString s'
      else lines_from (cur ++ String c EmptyString) s'
  end.

Fixpoint tail_from (cur s : string) : string :=
  match s with
  | EmptyString => cur
  | String c s' =>
      if Ascii.eqb c newline then tail_from EmptyString s'
      else tail_from (cur ++ String c EmptyString) s'
  end.

Definition complete_lines (s : string) : list string :=
  lines_from EmptyString s.

Definition unterminated (s : string) : string := tail_from EmptyString s.

(** The UPDATE branch of [_handle] in a server with other sessions:
    [engine.update] and [engine.get_top] each take the engine's lock, which
    is free in between, so that calls of the other sessions can run there;
    what they do to the engine is a sequence of updates [others]. *)
Definition update_then_top (others : list History.call)
                           (k : pykey) (nm : json) (sc : Z) (t : float)
  : M (update_result * list Entry.t) :=
  result <- update k nm sc t ;;
  _ <- History.run_updates others ;;
  top <- get_top TOP_N ;;
  ret (result, top).

(** Sessions that differ in the responses written only. *)
Definition same_progress (a b : session) : Prop :=
  buf a = buf b /\ handled a = handled b /\ is_open a = is_open b.

Section WithRuntime.

Variable rt : runtime.

(** A well-formed UPDATE request: what the handler passes to the engine. *)
Record update_request (clk : clock) (msg : json)
                      (k : pykey) (nm : json) (sc : Z) (t : float)
  : Prop := {
  req_player : exists v,
    lookup "player_id" (fields_of msg) = Some v /\
    hash_key v = inr k /\
    nm = get_default (fields_of msg) "name" v;
  req_score : exists sv,
    lookup "score" (fields_of msg) = Some sv /\ py_int rt sv = inr sc;
  req_ts :
    py_float rt (get_default (fields_of msg) "ts" (JFloat (time_time clk)))
    = inr t
}.

(** The lines that are served: those that are not blank. *)
Definition frames (s : string) : list string :=
  filter (fun line => negb (String.eqb (str_strip rt line) EmptyString))
         (complete_lines s).

End WithRuntime.

End Notions.

(** ** The callers of the protocol *)

Module Client.
Import Handler.

(** How a call of [LeaderboardClient._send_recv] ends once the request is
    written: with the decoded response, with the exception of [json.loads],
    with [ConnectionError], with the exception of a [recv] that raised or
    whose bytes did not decode, or still waiting in [recv].  Each leaves in
    [self._buf] the text read and not consumed. *)
Inductive outcome : Type :=
| Returned (reply : json) (buf : string) (unread : list recv_result)
| DecodeRaises (buf : string) (unread : list recv_result)
| ConnectionError (buf : string)
| RecvRaised (e : pyexc) (buf : string)
| Waiting (buf : string).

(** How [send_recv] of benchmark.py, which is [sr] of demo_auto.py, ends
    when it ends. *)
Inductive bench_outcome : Type :=
| BenchReturned (reply : json)
| BenchDecodeRaises.

Section WithRuntime.

Variable rt : runtime.

(** What the caller gets for a line. *)
Definition decoded_line (line buf : string) (unread : list recv_result)
  : outcome :=
  match json_loads rt line with
  | Some v => Returned v buf unread
  | None => DecodeRaises buf unread
  end.

(** client.py: the loop [while newline not in self._buf], the split and
    [json.loads(line)].  [events] are what the coming calls of
    [recv(4096).decode()] give, each chunk decoded on its own; when they
    run out the call waits in [recv]. *)
Fixpoint _send_recv (events : list recv_result) (buf : string)
                    {struct events} : outcome :=
  match split_newline buf with
  | Some (line, rest) =>
      match json_loads rt line with
      | Some v => Returned v rest events
      | None => DecodeRaises rest events
      end
  | None =>
      match events with
      | [] => Waiting buf
      | RecvRaises e :: _ => RecvRaised e buf
      | Received chunk :: more =>
          if String.eqb chunk EmptyString then ConnectionError buf
          else _send_recv more (buf ++ chunk)
      end
  end.

(** benchmark.py: [while newline not in buf: buf += sock.recv(4096).decode()]
    and [json.loads(buf.split(newline)[0])].  [sock i] is what the i-th
    [recv] returns; the result is [None] while the loop is still running
    after [fuel] tests of its condition. *)
Fixpoint send_recv (fuel : nat) (sock : nat -> string) (i : nat)
                   (buf : string) : option bench_outcome :=
  match fuel with
  | O => None
  | S fuel' =>
      match split_newline buf with
      | Some (line, _) =>
          Some match json_loads rt line with
               | Some v => BenchReturned v
               | None => BenchDecodeRaises
               end
      | None => send_recv fuel' sock (S i) (buf ++ sock i)
      end
  end.

End WithRuntime.

(** How one round of [worker] of benchmark.py goes: a response with status
    ok, a response without it, each with the latency measured, or an
    exception. *)
Inductive round : Type :=
| RespOk (latency : float)
| RespNotOk (latency : float)
| Raises.

(** One worker's run: whether connecting and waiting at the barrier
    succeed, its rounds ([n_updates] of them), whether closing succeeds. *)
Record worker_run : Type := mkRun {
  connects : bool;
  rounds : list round;
  closes : bool
}.

(** The loop of [worker]: the latencies appended and the errors counted. *)
Fixpoint play (rs : list round) (latencies : list float) (errors : nat)
  : list float * nat :=
  match rs with
  | [] => (latencies, errors)
  | RespOk t :: rs' => play rs' (latencies ++ [t]) errors
  | RespNotOk t :: rs' => play rs' (latencies ++ [t]) (S errors)
  | Raises :: rs' => play rs' latencies (S errors)
  end.

(** [worker]: the [{"latencies": .., "errors": ..}] it appends to
    [results]. *)
Definition worker (r : worker_run) : list float * nat :=
  let n_updates := List.length (rounds r) in
  if connects r then
    let (latencies, errors) := play (rounds r) [] O in
    if closes r then (latencies, errors)
    else (latencies, (errors + n_updates)%nat)
  else ([], n_updates).

(** [run_benchmark]: the counts it prints as Successful and Errors. *)
Definition totals (runs : list worker_run) : nat * nat :=
  let results := map worker runs in
  let all_lat := List.concat (map fst results) in
  (List.length all_lat, fold_right Nat.add O (map snd results)).

(** The responses of a run that came without status ok. *)
Definition not_ok (rs : list round) : nat :=
  List.length (filter (fun r => match r with
                                | RespNotOk _ => true
                                | _ => false
                                end) rs).

End Client.

(** ** More scenarios *)

Module Scenario2.
Import Engine Handler Scenario.
#[local] Open Scope string_scope.

(** [{"cmd": "UPDATE", "player_id": "p1", "score": 5, "ts": 0.5}] *)
Definition frame_stale : string :=
  object [member "cmd" (text "UPDATE"); member "player_id" (text "p1");
          member "score" "5"; member "ts" "0.5"].

(** [{"cmd": "UPDATE", "player_id": "p3", "score": 5}] *)
Definition frame_plain : string :=
  object [member "cmd" (text "UPDATE"); member "player_id" (text "p3");
          member "score" "5"].

Definition msg_stale : json :=
  JObj [("cmd", JStr "UPDATE"); ("player_id", JStr "p1");
        ("score", JInt 5); ("ts", JFloat 0.5)].

Definition msg_plain : json :=
  JObj [("cmd", JStr "UPDATE"); ("player_id", JStr "p3"); ("score", JInt 5)].

(** The runtime of the scenarios with the two frames above decoded too. *)
Definition wide_runtime : runtime :=
  {| json_loads := fun raw =>
       lookup raw ((frame_stale, msg_stale) :: (frame_plain, msg_plain)
                   :: decoded);
     str_upper := upper;
     str_strip := fun s => rstrip (lstrip s);
     int_of_str := fun _ => None;
     float_of_str := fun _ => None |}.

(** A world in which every write fails. *)
Definition deaf_world : world :=
  {| clock_at := fun _ => clock_5; send_fails := fun _ => true |}.

(** A player stored with a NaN timestamp. *)
Definition nan_record : record :=
  {| score := 10; name := JStr "Ann"; ts := nan |}.

Definition nan_engine : engine :=
  {| _scores := [(KStr "p1", nan_record)];
     _update_count := 1;
     _start_time := 0 |}.

(** Two later updates of that player. *)
Definition late_calls : list History.call :=
  [ {| History.player_id := KStr "p1"; History.name := JStr "Ann";
       History.score := 50; History.timestamp := 100 |};
    {| History.player_id := KStr "p1"; History.name := JStr "Ann";
       History.score := 60; History.timestamp := infinity |} ].

(** A request cut in two by [recv], then a newline and the start of the
    next request. *)
Definition first_chunk : string := "{".

Definition other_chunks : list string :=
  [String.concat ", " [member "cmd" (text "foo")] ++ "}";
   String newline "{"].

(** What a socket delivers: two chunks, the second with a newline, then
    the empty string for ever. *)
Definition closing_socket (i : nat) : string :=
  match i with
  | O => "ab"
  | S O => "c" ++ String newline "de"
  | _ => EmptyString
  end.

(** Two workers of three rounds each. *)
Definition two_runs : list Client.worker_run :=
  [ {| Client.connects := true;
       Client.rounds := [Client.RespOk 1; Client.RespNotOk 2; Client.Raises];
       Client.closes := true |};
    {| Client.connects := true;
       Client.rounds := [Client.RespOk 1; Client.RespOk 1; Client.RespOk 3];
       Client.closes := true |} ].

(** The two records of the tie. *)
Definition ann_20 : record :=
  {| Engine.score := 20; Engine.name := JStr "Ann"; ts := 1 |}.

Definition bob_20 : record :=
  {| Engine.score := 20; Engine.name := JStr "Bob"; ts := 2 |}.

(** Two chunks, a newline in the second. *)
Definition two_chunks : list string := ["ab"; "c" ++ String newline "de"].

End Scenario2.

(** * Properties *)

(** ** Order on floats *)

Module FloatFacts.

Lemma SFcompare_antisym (a b : spec_float) (c : comparison) :
  SFcompare a b = Some c -> SFcompare b a = Some (CompOpp c).
Proof.
  destruct a as [sa|sa| |sa ma ea], b as [sb|sb| |sb mb eb]; simpl;
    try discriminate;
    try (destruct sa); try (destruct sb); simpl;
    try (intros [= <-]; reflexivity).
  all: change (Pos.compare_cont Eq mb ma) with (Pos.compare mb ma);
       change (Pos.compare_cont Eq ma mb) with (Pos.compare ma mb);
       rewrite (Z.compare_antisym ea eb), (Pos.compare_antisym ma mb);
       intros [= <-]; destruct (ea ?= eb)%Z, (ma ?= mb)%positive; reflexivity.
Qed.

Lemma SFcompare_total (a b : spec_float) :
  a <> S754_nan -> b <> S754_nan -> exists c, SFcompare a b = Some c.
Proof.
  destruct a, b; simpl; intros; try congruence; eauto.
Qed.

(** [a <= b] excludes [a > b]. *)
Lemma le_not_gt (a b : float) :
  PyFloat.le a b = true -> PyFloat.gt a b = false.
Proof.
  unfold PyFloat.le, PyFloat.gt.
  rewrite leb_spec, ltb_spec. unfold SFleb, SFltb.
  destruct (SFcompare (Prim2SF a) (Prim2SF b)) as [c|] eqn:E; [|discriminate].
  rewrite (SFcompare_antisym _ _ _ E).
  destruct c; simpl; congruence.
Qed.

Lemma is_nan_spec (x : float) :
  PrimFloat.is_nan x = false -> Prim2SF x <> S754_nan.
Proof.
  unfold PrimFloat.is_nan. rewrite eqb_spec. unfold SFeqb.
  intros H E. rewrite E in H. discriminate.
Qed.

(** For a number [x], [not (x < 1)] gives [1 <= x]. *)
Lemma not_lt_one_ge (x : float) :
  PrimFloat.is_nan x = false -> PyFloat.gt 1 x = false -> PyFloat.le 1 x = true.
Proof.
  intros Hn. apply is_nan_spec in Hn.
  unfold PyFloat.gt, PyFloat.le. rewrite leb_spec, ltb_spec.
  unfold SFleb, SFltb.
  destruct (SFcompare_total (Prim2SF x) (Prim2SF 1) Hn) as [c E].
  { vm_compute. discriminate. }
  rewrite E, (SFcompare_antisym _ _ _ E).
  destruct c; simpl; congruence.
Qed.

(** [max(x, 1)] is at least 1 unless [x] is NaN. *)
Lemma max1_ge_one (x : float) :
  PrimFloat.is_nan x = false -> PyFloat.le 1 (PyFloat.max1 x) = true.
Proof.
  intros Hn. unfold PyFloat.max1.
  destruct (PyFloat.gt 1 x) eqn:E.
  - reflexivity.
  - now apply not_lt_one_ge.
Qed.

(** [max(x, 1)] is never zero, whatever [x] is. *)
Lemma max1_nonzero (x : float) :
  PrimFloat.eqb (PyFloat.max1 x) 0 = false.
Proof.
  unfold PyFloat.max1.
  destruct (PyFloat.gt 1 x) eqn:E; [reflexivity|].
  unfold PyFloat.gt in E. rewrite ltb_spec in E. rewrite eqb_spec.
  unfold SFltb in E. unfold SFeqb.
  change (Prim2SF 0) with (S754_zero false).
  change (Prim2SF 1) with (S754_finite false 4503599627370496 (-52)) in E.
  destruct (Prim2SF x) as [s|s| |s m e].
  - cbv [SFcompare] in E. discriminate.
  - clear E. destruct s; reflexivity.
  - reflexivity.
  - clear E. destruct s; reflexivity.
Qed.

Lemma truediv_max1 (a x : float) :
  PyFloat.truediv a (PyFloat.max1 x) = inr (a / PyFloat.max1 x)%float.
Proof.
  unfold PyFloat.truediv. now rewrite max1_nonzero.
Qed.

End FloatFacts.

(** ** Keys and the score dictionary *)

Module DictFacts.
Import Engine.

Lemma key_eqb_eq (a b : pykey) : key_eqb a b = true <-> a = b.
Proof.
  destruct a, b; simpl; split; intro H; try discriminate; try reflexivity.
  - apply Z.eqb_eq in H. now subst.
  - injection H as ->. apply Z.eqb_refl.
  - apply Leibniz.eqb_spec in H. now subst.
  - injection H as ->. now apply Leibniz.eqb_spec.
  - apply String.eqb_eq in H. now subst.
  - injection H as ->. apply String.eqb_refl.
Qed.

Lemma key_eqb_refl (k : pykey) : key_eqb k k = true.
Proof. now apply key_eqb_eq. Qed.

Lemma key_eqb_neq (a b : pykey) : a <> b -> key_eqb a b = false.
Proof.
  intro H. destruct (key_eqb a b) eqn:E; [|reflexivity].
  apply key_eqb_eq in E. contradiction.
Qed.

(** Writing a key that is absent appends the item. *)
Lemma dict_set_absent (k : pykey) (v : record) (d : list (pykey * record)) :
  dict_get k d = None -> dict_set k v d = d ++ [(k, v)].
Proof.
  induction d as [|[k' v'] d IH]; simpl; [reflexivity|].
  destruct (key_eqb k k'); [discriminate|].
  intro H. now rewrite IH.
Qed.

Lemma dict_get_set_same (k : pykey) (v : record) (d : list (pykey * record)) :
  dict_get k (dict_set k v d) = Some v.
Proof.
  induction d as [|[k' v'] d IH]; simpl.
  - now rewrite key_eqb_refl.
  - destruct (key_eqb k k') eqn:E; simpl; rewrite E; [reflexivity|exact IH].
Qed.

Lemma dict_get_set_other (k k' : pykey) (v : record) (d : list (pykey * record)) :
  k' <> k -> dict_get k' (dict_set k v d) = dict_get k' d.
Proof.
  intro Hne. induction d as [|[k0 v0] d IH]; simpl.
  - now rewrite (key_eqb_neq _ _ Hne).
  - destruct (key_eqb k k0) eqn:E; simpl.
    + apply key_eqb_eq in E. subst k0.
      now rewrite (key_eqb_neq _ _ Hne).
    + destruct (key_eqb k' k0); [reflexivity|exact IH].
Qed.

(** Writing never changes how many keys there are, except by one new key. *)
Lemma dict_set_length (k : pykey) (v : record) (d : list (pykey * record)) :
  List.length (dict_set k v d) =
  match dict_get k d with
  | Some _ => List.length d
  | None => S (List.length d)
  end.
Proof.
  induction d as [|[k' v'] d IH]; simpl; [reflexivity|].
  destruct (key_eqb k k'); simpl; [reflexivity|].
  rewrite IH. now destruct (dict_get k d).
Qed.

Lemma dict_get_in (k : pykey) (v : record) (d : list (pykey * record)) :
  dict_get k d = Some v -> In (k, v) d.
Proof.
  induction d as [|[k' v'] d IH]; simpl; [discriminate|].
  destruct (key_eqb k k') eqn:E.
  - apply key_eqb_eq in E. intros [= <-]. left. now subst.
  - intro H. right. now apply IH.
Qed.

End DictFacts.

(** ** The engine *)

Module EngineFacts.
Import Engine DictFacts History.

(** The two outcomes of [update], by the test it makes. *)
Lemma update_cases (c : call) (self : engine) :
  apply c self =
  match dict_get (player_id c) (_scores self) with
  | None => (inr (accept_of c), written c self)
  | Some old =>
      if PyFloat.gt (timestamp c) (ts old)
      then (inr (accept_of c), written c self)
      else (inr {| status := rejected; current_score := Engine.score old |},
            self)
  end.
Proof.
  unfold apply, update, bind, get_self, put_self, ret. simpl.
  destruct (dict_get (player_id c) (_scores self)) as [old|]; [|reflexivity].
  destruct (PyFloat.gt (timestamp c) (ts old)); reflexivity.
Qed.

(** [update] returns, and the counter moves by one exactly when it accepts. *)
Lemma update_count_step (c : call) (self : engine) :
  exists r self',
    apply c self = (inr r, self') /\
    _update_count self' =
      _update_count self + (if is_accepted r then 1 else 0) /\
    _start_time self' = _start_time self.
Proof.
  rewrite update_cases.
  destruct (dict_get (player_id c) (_scores self)) as [old|].
  - destruct (PyFloat.gt (timestamp c) (ts old)); eexists; eexists;
      (split; [reflexivity|]); simpl; split; (lia || reflexivity).
  - eexists; eexists; (split; [reflexivity|]); simpl; split;
      (lia || reflexivity).
Qed.

(** C1. An update to a stored player whose timestamp is not greater than
    the stored one is rejected: the result is [rejected] with the stored
    score, and the engine (dictionary, counter, start time) is as before. *)
Theorem update_stale_rejected
    (self : engine) (player_id : pykey) (name : json) (score : Z)
    (timestamp : float) (old : record) :
  dict_get player_id (_scores self) = Some old ->
  PyFloat.le timestamp (ts old) = true ->
  update player_id name score timestamp self =
  (inr {| status := rejected; current_score := Engine.score old |}, self).
Proof.
  intros Hget Hle.
  change (update player_id name score timestamp)
    with (apply (mkCall player_id name score timestamp)).
  rewrite update_cases. simpl. rewrite Hget.
  now rewrite (FloatFacts.le_not_gt _ _ Hle).
Qed.

(** C9. An update to a player that is not stored is accepted whatever the
    timestamp: the record with the given score, name and timestamp is added
    to the dictionary and found under the identifier, the counter grows by
    one and the result is [accepted] with the given score. *)
Theorem update_new_player
    (self : engine) (player_id : pykey) (name : json) (score : Z)
    (timestamp : float) :
  dict_get player_id (_scores self) = None ->
  let d := {| Engine.score := score; Engine.name := name; ts := timestamp |} in
  let self' := {| _scores := _scores self ++ [(player_id, d)];
                  _update_count := _update_count self + 1;
                  _start_time := _start_time self |} in
  update player_id name score timestamp self =
    (inr {| status := accepted; current_score := score |}, self') /\
  dict_get player_id (_scores self') = Some d.
Proof.
  intros Hget d self'.
  change (update player_id name score timestamp)
    with (apply (mkCall player_id name score timestamp)).
  rewrite update_cases. simpl. rewrite Hget.
  unfold written, stored, accept_of. simpl.
  rewrite (dict_set_absent _ _ _ Hget). split; [reflexivity|].
  subst self'. simpl. rewrite <- (dict_set_absent _ d _ Hget).
  apply dict_get_set_same.
Qed.

(** An update newer than whatever is stored is accepted and written. *)
Lemma update_newer (c : call) (self : engine) :
  (forall old, dict_get (player_id c) (_scores self) = Some old ->
               PyFloat.gt (timestamp c) (ts old) = true) ->
  apply c self = (inr (accept_of c), written c self).
Proof.
  intro H. rewrite update_cases.
  destruct (dict_get (player_id c) (_scores self)) as [old|]; [|reflexivity].
  now rewrite (H old eq_refl).
Qed.

Lemma run_updates_cons (c : call) (rest : list call) (self : engine) :
  run_updates (c :: rest) self =
  match apply c self with
  | (inl e, self') => (inl e, self')
  | (inr r, self') =>
      match run_updates rest self' with
      | (inl e, self'') => (inl e, self'')
      | (inr rs, self'') => (inr (r :: rs), self'')
      end
  end.
Proof.
  simpl. unfold bind, ret.
  destruct (apply c self) as [[e|r] self']; [reflexivity|].
  destruct (run_updates rest self') as [[e|rs] self'']; reflexivity.
Qed.

(** C2. Updates to one player with strictly increasing timestamps, the
    first one newer than what the engine stores for that player, are all
    accepted, each result carrying that update's score; afterwards the
    player's record is the score, name and timestamp of the last update. *)
Theorem lww_monotone (pid : pykey) (calls : list call) (self : engine) :
  Forall (fun c => player_id c = pid) calls ->
  increasing (map timestamp calls) = true ->
  (forall first old,
      hd_error calls = Some first ->
      dict_get pid (_scores self) = Some old ->
      PyFloat.gt (timestamp first) (ts old) = true) ->
  exists self',
    run_updates calls self = (inr (map accept_of calls), self') /\
    (forall d, calls <> [] ->
               dict_get pid (_scores self') = Some (stored (last calls d))).
Proof.
  revert self. induction calls as [|c rest IH]; intros self Hpid Hinc Hfirst.
  - exists self. split; [reflexivity|]. intros d H. now contradiction H.
  - inversion Hpid as [|? ? Hc Hrest]; subst.
    assert (Happ : apply c self = (inr (accept_of c), written c self)).
    { apply update_newer. intros old Hold. now apply (Hfirst c old). }
    assert (Hstored : dict_get (player_id c) (_scores (written c self))
                      = Some (stored c)).
    { apply dict_get_set_same. }
    destruct (IH (written c self) Hrest) as [self' [Hrun Hlast]].
    + destruct rest as [|c' rest']; [reflexivity|].
      simpl in Hinc. apply andb_prop in Hinc. tauto.
    + intros first old Hhd Hold. rewrite Hstored in Hold.
      injection Hold as <-. destruct rest as [|c' rest']; [discriminate|].
      injection Hhd as <-. simpl in Hinc. apply andb_prop in Hinc.
      simpl. tauto.
    + exists self'. split.
      * rewrite run_updates_cons, Happ, Hrun. reflexivity.
      * intros d _. destruct rest as [|c' rest'].
        -- simpl in Hrun. injection Hrun as <-. exact Hstored.
        -- change (last (c :: c' :: rest') d) with (last (c' :: rest') d).
           apply Hlast. discriminate.
Qed.

(** The calls all return, one result each, and the counter grows by the
    number of accepted ones. *)
Lemma run_updates_count (calls : list call) (self : engine) :
  exists results self',
    run_updates calls self = (inr results, self') /\
    List.length results = List.length calls /\
    _update_count self' =
      _update_count self + Z.of_nat (accepted_count results) /\
    _start_time self' = _start_time self.
Proof.
  revert self. induction calls as [|c rest IH]; intro self.
  - exists [], self. simpl. repeat split; lia.
  - destruct (update_count_step c self) as [r [s1 [Happ [Hcnt Hst]]]].
    destruct (IH s1) as [rs [s2 [Hrun [Hlen [Hcnt2 Hst2]]]]].
    exists (r :: rs), s2. rewrite run_updates_cons, Happ, Hrun.
    split; [reflexivity|]. split; [simpl; lia|]. split; [|congruence].
    rewrite Hcnt2, Hcnt. unfold accepted_count. simpl.
    destruct (is_accepted r); simpl; lia.
Qed.

(** What [stats] computes: it raises only when the counter is too large
    for a float, and otherwise returns without touching the engine. *)
Lemma stats_cases (now : float) (self : engine) :
  stats now self =
  let elapsed := (now - _start_time self)%float in
  match PyFloat.of_int (_update_count self) with
  | inl e => (inl e, self)
  | inr a =>
      (inr {| total_players := Z.of_nat (List.length (_scores self));
              total_updates := _update_count self;
              uptime_seconds := PyFloat.round elapsed 2;
              updates_per_sec :=
                PyFloat.round (a / PyFloat.max1 elapsed)%float 2 |}, self)
  end.
Proof.
  unfold stats, bind, get_self, lift, ret, PyFloat.int_truediv. simpl.
  destruct (PyFloat.of_int (_update_count self)) as [e|a]; [reflexivity|].
  now rewrite FloatFacts.truediv_max1.
Qed.

Lemma of_int_small (z : Z) :
  Z.abs z < 2 ^ 1024 - 2 ^ 970 -> exists a, PyFloat.of_int z = inr a.
Proof.
  intro H. unfold PyFloat.of_int.
  destruct (Z.ltb_spec (Z.abs z) (2 ^ 1024 - 2 ^ 970)); [eauto|lia].
Qed.

(** C6. Starting from a fresh engine, every update returns; the counter
    moves by one on an accepted update and stays on a rejected one, so after
    any sequence of calls it is the number of accepted ones, and that is the
    [total_updates] that [stats] reports, which it does whenever that number
    fits a float. *)
Theorem counter_accuracy (start : float) (calls : list call) :
  exists results self',
    run_updates calls (init start) = (inr results, self') /\
    List.length results = List.length calls /\
    _update_count self' = Z.of_nat (accepted_count results) /\
    (forall c s, exists r s',
        apply c s = (inr r, s') /\
        _update_count s' = _update_count s + (if is_accepted r then 1 else 0)) /\
    (forall now st s,
        stats now self' = (inr st, s) ->
        total_updates st = Z.of_nat (accepted_count results)) /\
    (forall now,
        Z.of_nat (accepted_count results) < 2 ^ 1024 - 2 ^ 970 ->
        exists st, stats now self' = (inr st, self') /\
                   total_updates st = Z.of_nat (accepted_count results)).
Proof.
  destruct (run_updates_count calls (init start))
    as [results [self' [Hrun [Hlen [Hcnt _]]]]].
  simpl in Hcnt. exists results, self'.
  split; [exact Hrun|]. split; [exact Hlen|]. split; [exact Hcnt|].
  split; [|split].
  - intros c s. destruct (update_count_step c s) as [r [s' [H1 [H2 _]]]].
    now exists r, s'.
  - intros now st s. rewrite stats_cases. simpl.
    destruct (PyFloat.of_int (_update_count self')); [discriminate|].
    intros [= <- _]. exact Hcnt.
  - intros now Hsmall. rewrite stats_cases. simpl.
    destruct (of_int_small (_update_count self')) as [a Ha]; [lia|].
    rewrite Ha. eexists. split; [reflexivity|]. exact Hcnt.
Qed.

(** C10. The reading methods return the engine they were given: after
    [get_top], [get_player] and [stats] the dictionary, the counter and the
    start time are what they were. *)
Theorem reads_keep_engine
    (self : engine) (n : Z) (player_id : pykey) (now : float) :
  snd (get_top n self) = self /\
  snd (get_player player_id self) = self /\
  snd (stats now self) = self.
Proof.
  split; [reflexivity|]. split; [reflexivity|].
  rewrite stats_cases. simpl.
  now destruct (PyFloat.of_int (_update_count self)).
Qed.

End EngineFacts.

(** ** Ranking *)

Module RankingFacts.
Import Engine Ranking.

Lemma insert_desc_perm (x : Entry.t) (l : list Entry.t) :
  Permutation (x :: l) (insert_desc x l).
Proof.
  induction l as [|y l IH]; simpl; [reflexivity|].
  destruct (Entry.score y <=? Entry.score x); [reflexivity|].
  rewrite perm_swap. now apply perm_skip.
Qed.

Lemma sorted_desc_perm (l : list Entry.t) : Permutation l (sorted_desc l).
Proof.
  induction l as [|x l IH]; simpl; [reflexivity|].
  rewrite <- insert_desc_perm. now apply perm_skip.
Qed.

Lemma insert_desc_sorted (x : Entry.t) (l : list Entry.t) :
  descending l -> descending (insert_desc x l).
Proof.
  unfold descending. induction l as [|y l IH]; intro H; simpl.
  - repeat constructor.
  - inversion H as [|? ? Hl Hy]; subst.
    destruct (Z.leb_spec (Entry.score y) (Entry.score x)) as [Hle|Hgt].
    + constructor; [exact H|]. constructor; [exact Hle|].
      eapply Forall_impl; [|exact Hy]. simpl. intros; lia.
    + constructor; [now apply IH|].
      apply (Permutation_Forall (insert_desc_perm x l)).
      constructor; [lia|exact Hy].
Qed.

Lemma sorted_desc_sorted (l : list Entry.t) : descending (sorted_desc l).
Proof.
  induction l as [|x l IH]; simpl; [constructor|].
  now apply insert_desc_sorted.
Qed.

Lemma descending_split (l1 l2 : list Entry.t) :
  descending (l1 ++ l2) ->
  descending l1 /\
  forall e r, In e l1 -> In r l2 -> Entry.score r <= Entry.score e.
Proof.
  unfold descending. induction l1 as [|x l1 IH]; simpl; intro H.
  - split; [constructor|]. intros e r [].
  - inversion H as [|? ? Hl Hx]; subst.
    destruct (IH Hl) as [Hs Hdom]. apply Forall_app in Hx as [Hx1 Hx2].
    split; [now constructor|].
    intros e r [<-|He] Hr.
    + rewrite Forall_forall in Hx2. now apply Hx2.
    + now apply Hdom.
Qed.

Lemma assign_ranks_length (i : Z) (l : list Entry.t) :
  List.length (assign_ranks i l) = List.length l.
Proof.
  revert i. induction l as [|e l IH]; intro i; simpl; [reflexivity|].
  now rewrite IH.
Qed.

Lemma assign_ranks_scores (i : Z) (l : list Entry.t) :
  map Entry.score (assign_ranks i l) = map Entry.score l.
Proof.
  revert i. induction l as [|e l IH]; intro i; simpl; [reflexivity|].
  now rewrite IH.
Qed.

Lemma assign_ranks_ranks (i : nat) (l : list Entry.t) :
  map Entry.rank (assign_ranks (Z.of_nat i) l) =
  map Z.of_nat (seq i (List.length l)).
Proof.
  revert i. induction l as [|e l IH]; intro i; simpl; [reflexivity|].
  f_equal. rewrite <- IH. do 2 f_equal. lia.
Qed.

(** Setting the rank back to 0 gives the rows as they were built. *)
Lemma assign_ranks_unrank (i : Z) (l : list Entry.t) :
  Forall (fun e => Entry.rank e = 0) l ->
  map (Entry.set_rank 0) (assign_ranks i l) = l.
Proof.
  revert i. induction l as [|e l IH]; intros i H; simpl; [reflexivity|].
  inversion H as [|? ? He Hl]; subst. rewrite (IH _ Hl).
  f_equal. destruct e as [r p nm sc]. simpl in He. subst r. reflexivity.
Qed.

Lemma rows_rank_zero (d : list (pykey * record)) :
  Forall (fun e => Entry.rank e = 0) (rows d).
Proof.
  unfold rows. apply Forall_forall. intros e He.
  apply in_map_iff in He as [[pid r] [<- _]]. reflexivity.
Qed.

Lemma rows_length (d : list (pykey * record)) :
  List.length (rows d) = List.length d.
Proof. unfold rows. apply length_map. Qed.

(** A relation on scores read off the list of scores. *)
Lemma sorted_by_scores (R : Z -> Z -> Prop) (l l' : list Entry.t) :
  map Entry.score l = map Entry.score l' ->
  StronglySorted (fun a b => R (Entry.score a) (Entry.score b)) l ->
  StronglySorted (fun a b => R (Entry.score a) (Entry.score b)) l'.
Proof.
  revert l'. induction l as [|x l IH]; intros [|x' l'] Heq H;
    try discriminate; [constructor|].
  simpl in Heq. injection Heq as Hx Hl.
  inversion H as [|? ? Hs Hall]; subst. constructor; [now apply IH|].
  rewrite Forall_forall in *. intros b' Hb'.
  apply (in_map Entry.score) in Hb'. rewrite <- Hl in Hb'.
  apply in_map_iff in Hb' as [b [Hb Hin]].
  rewrite <- Hx, <- Hb. now apply Hall.
Qed.

Lemma get_top_eq (n : Z) (self : engine) :
  get_top n self =
  (inr (assign_ranks 1 (slice_to n (sorted_desc (rows (_scores self))))), self).
Proof. reflexivity. Qed.

(** C3, as the engine has it. For [0 <= n], [get_top n] returns
    [min(n, player_count)] rows whose scores never go up from one row to
    the next, ranked 1, 2, ..., k, and they are the highest-scoring players:
    they are players of the dictionary and no other player scores more. *)
Theorem get_top_ranking (self : engine) (n : Z) :
  0 <= n ->
  exists top,
    get_top n self = (inr top, self) /\
    List.length top = Nat.min (Z.to_nat n) (List.length (_scores self)) /\
    descending top /\
    ranks_contiguous top /\
    highest_scoring self top.
Proof.
  intro Hn. rewrite get_top_eq. eexists. split; [reflexivity|].
  unfold slice_to. destruct (Z.leb_spec 0 n); [|lia].
  set (ranked := sorted_desc (rows (_scores self))).
  set (k := Z.to_nat n).
  assert (Hsplit : descending (firstn k ranked ++ skipn k ranked)).
  { rewrite firstn_skipn. apply sorted_desc_sorted. }
  apply descending_split in Hsplit as [Hdesc Hdom].
  assert (Hzero : Forall (fun e => Entry.rank e = 0) (firstn k ranked)).
  { apply Forall_forall. intros e He.
    assert (He' : In e ranked).
    { rewrite <- (firstn_skipn k ranked). apply in_or_app. now left. }
    clear He. rename He' into He.
    apply (Permutation_in _ (Permutation_sym (sorted_desc_perm _))) in He.
    pose proof (rows_rank_zero (_scores self)) as Hz.
    rewrite Forall_forall in Hz. now apply Hz. }
  repeat split.
  - rewrite assign_ranks_length, length_firstn. unfold ranked.
    now rewrite <- (Permutation_length (sorted_desc_perm _)), rows_length.
  - unfold descending.
    apply (sorted_by_scores (fun a b => b <= a) (firstn k ranked));
      [now rewrite assign_ranks_scores | exact Hdesc].
  - unfold ranks_contiguous. rewrite assign_ranks_length.
    apply (assign_ranks_ranks 1).
  - exists (skipn k ranked). split.
    + rewrite (assign_ranks_unrank _ _ Hzero), firstn_skipn.
      apply sorted_desc_perm.
    + intros e r He Hr.
      apply (in_map Entry.score) in He. rewrite assign_ranks_scores in He.
      apply in_map_iff in He as [e0 [<- He0]]. now apply Hdom.
Qed.

End RankingFacts.

(** ** Which players are stored *)

Module HistoryFacts.
Import Engine DictFacts History EngineFacts.

Lemma dict_get_written (k : pykey) (c : call) (self : engine) :
  dict_get k (_scores (written c self)) =
  if key_eqb k (player_id c) then Some (stored c)
  else dict_get k (_scores self).
Proof.
  unfold written. simpl.
  destruct (key_eqb k (player_id c)) eqn:E.
  - apply key_eqb_eq in E. subst k. apply dict_get_set_same.
  - apply dict_get_set_other. intro H. subst k.
    now rewrite key_eqb_refl in E.
Qed.

(** After any calls, a player is missing exactly when it was missing before
    and none of the calls accepted an update for it. *)
Lemma stored_iff_accepted (calls : list call) (self : engine) (k : pykey) :
  exists rs self',
    run_updates calls self = (inr rs, self') /\
    (dict_get k (_scores self') = None <->
     dict_get k (_scores self) = None /\ ~ In k (accepted_keys calls rs)).
Proof.
  revert self. induction calls as [|c rest IH]; intro self.
  - exists [], self. split; [reflexivity|]. simpl. tauto.
  - assert (Hwritten :
      forall rs s2,
        run_updates rest (written c self) = (inr rs, s2) ->
        (dict_get k (_scores s2) = None <->
         dict_get k (_scores (written c self)) = None /\
         ~ In k (accepted_keys rest rs)) ->
        dict_get k (_scores s2) = None <->
        dict_get k (_scores self) = None /\
        ~ In k (player_id c :: accepted_keys rest rs)).
    { intros rs s2 _ Hiff. rewrite Hiff, dict_get_written. simpl.
      destruct (key_eqb k (player_id c)) eqn:E.
      - apply key_eqb_eq in E. subst k.
        split; [intros [H _]; discriminate|]. intros [_ H]. tauto.
      - assert (player_id c <> k).
        { intro H. subst k. now rewrite key_eqb_refl in E. }
        tauto. }
    rewrite run_updates_cons, update_cases.
    destruct (dict_get (player_id c) (_scores self)) as [old|] eqn:Hold.
    + destruct (PyFloat.gt (timestamp c) (ts old)).
      * destruct (IH (written c self)) as [rs [s2 [Hrun Hiff]]].
        exists (accept_of c :: rs), s2. rewrite Hrun.
        split; [reflexivity|]. now apply Hwritten.
      * destruct (IH self) as [rs [s2 [Hrun Hiff]]].
        eexists. exists s2. rewrite Hrun. split; [reflexivity|]. exact Hiff.
    + destruct (IH (written c self)) as [rs [s2 [Hrun Hiff]]].
      exists (accept_of c :: rs), s2. rewrite Hrun.
      split; [reflexivity|]. now apply Hwritten.
Qed.

(** From a fresh engine: stored exactly when an update was accepted. *)
Lemma absent_iff_never_accepted (calls : list call) (start : float)
                                (k : pykey) :
  dict_get k (_scores (after calls start)) = None <->
  ~ In k (accepted_ids calls start).
Proof.
  unfold after, accepted_ids.
  destruct (stored_iff_accepted calls (init start) k)
    as [rs [self' [Hrun Hiff]]].
  rewrite Hrun. simpl. rewrite Hiff. simpl. tauto.
Qed.

End HistoryFacts.

(** ** The handler *)

Module HandlerFacts.
Import Engine Handler History.

Section WithRuntime.

Variable rt : runtime.

(** [_handle], one case per way out. *)
Lemma handle_cases (clk : clock) (raw : string) (self : engine) :
  _handle rt clk raw self =
  match json_loads rt raw with
  | None => (inr (Err JSONDecodeError), self)
  | Some msg =>
      match command rt msg with
      | inl e => (inr (Err e), self)
      | inr cmd =>
          match dispatch rt clk msg cmd self with
          | (inl e, self') => (inr (Err e), self')
          | (inr data, self') => (inr (Ok (latency clk) data), self')
          end
      end
  end.
Proof.
  unfold _handle, try_except, bind, lift, ret.
  destruct (json_loads rt raw) as [msg|]; [|reflexivity].
  destruct (command rt msg) as [e|cmd]; [reflexivity|].
  destruct (dispatch rt clk msg cmd self) as [[e|data] self']; reflexivity.
Qed.

Lemma update_returns (k : pykey) (nm : json) (sc : Z) (t : float)
                     (self : engine) :
  exists r self', update k nm sc t self = (inr r, self').
Proof.
  destruct (EngineFacts.update_count_step (mkCall k nm sc t) self)
    as [r [self' [H _]]].
  now exists r, self'.
Qed.

(** The UPDATE branch, once its arguments are evaluated. *)
Lemma dispatch_update (clk : clock) (msg : json) (self : engine) :
  dispatch rt clk msg "UPDATE" self =
  let fields := fields_of msg in
  match item fields "player_id" with
  | inl e => (inl e, self)
  | inr player_id =>
      match item fields "score" with
      | inl e => (inl e, self)
      | inr raw_score =>
          match py_int rt raw_score with
          | inl e => (inl e, self)
          | inr score =>
              match py_float rt (get_default fields "ts"
                                   (JFloat (time_time clk))) with
              | inl e => (inl e, self)
              | inr timestamp =>
                  match hash_key player_id with
                  | inl e => (inl e, self)
                  | inr k =>
                      let name := get_default fields "name" player_id in
                      match update k name score timestamp self with
                      | (inl e, self') => (inl e, self')
                      | (inr result, self') =>
                          (inr (UpdateData result
                                  (assign_ranks 1
                                     (slice_to TOP_N
                                        (sorted_desc (rows (_scores self')))))),
                           self')
                      end
                  end
              end
          end
      end
  end.
Proof.
  unfold dispatch. simpl String.eqb. cbv iota.
  unfold bind, lift, key_of, get_self, ret. simpl.
  destruct (item (fields_of msg) "player_id") as [e|player_id]; [reflexivity|].
  destruct (item (fields_of msg) "score") as [e|raw_score]; [reflexivity|].
  destruct (py_int rt raw_score) as [e|score]; [reflexivity|].
  destruct (py_float rt _) as [e|timestamp]; [reflexivity|].
  destruct (hash_key player_id) as [e|k]; [reflexivity|].
  destruct (update k _ score timestamp self) as [[e|result] self'];
    reflexivity.
Qed.

(** The GET_PLAYER branch. *)
Lemma dispatch_get_player (clk : clock) (msg : json) (self : engine) :
  dispatch rt clk msg "GET_PLAYER" self =
  match item (fields_of msg) "player_id" with
  | inl e => (inl e, self)
  | inr player_id =>
      match hash_key player_id with
      | inl e => (inl e, self)
      | inr k =>
          (inr match dict_get k (_scores self) with
               | Some d => PlayerData d
               | None => ErrorData "player not found"
               end, self)
      end
  end.
Proof.
  unfold dispatch. cbn [String.eqb Ascii.eqb Bool.eqb].
  unfold bind, lift, key_of, get_self, get_player, ret. simpl.
  destruct (item (fields_of msg) "player_id") as [e|player_id]; [reflexivity|].
  destruct (hash_key player_id) as [e|k]; [reflexivity|].
  destruct (dict_get k (_scores self)); reflexivity.
Qed.

(** A branch that raises has not changed the engine. *)
Lemma dispatch_raise_keeps (clk : clock) (msg : json) (cmd : string)
                           (self self' : engine) (e : pyexc) :
  dispatch rt clk msg cmd self = (inl e, self') -> self' = self.
Proof.
  destruct (String.eqb cmd "UPDATE") eqn:Eu.
  { apply String.eqb_eq in Eu. subst cmd. rewrite dispatch_update. simpl.
    destruct (item (fields_of msg) "player_id") as [?|player_id];
      [congruence|].
    destruct (item (fields_of msg) "score") as [?|raw_score]; [congruence|].
    destruct (py_int rt raw_score) as [?|score]; [congruence|].
    destruct (py_float rt _) as [?|timestamp]; [congruence|].
    destruct (hash_key player_id) as [?|k]; [congruence|].
    destruct (update_returns k (get_default (fields_of msg) "name" player_id)
                score timestamp self) as [r [s1 ->]].
    discriminate. }
  unfold dispatch. rewrite Eu.
  destruct (String.eqb cmd "GET_TOP").
  { unfold bind, lift, get_top, get_self, ret.
    destruct (py_int rt _); simpl; [congruence|discriminate]. }
  destruct (String.eqb cmd "GET_PLAYER").
  { unfold bind, lift, key_of, get_self, get_player, ret. simpl.
    destruct (item (fields_of msg) "player_id"); [congruence|].
    destruct (hash_key _); [congruence|].
    destruct (dict_get _ _); discriminate. }
  destruct (String.eqb cmd "STATS").
  { unfold bind. rewrite EngineFacts.stats_cases. simpl.
    destruct (PyFloat.of_int (_update_count self)); simpl;
      [congruence|discriminate]. }
  destruct (String.eqb cmd "PING"); discriminate.
Qed.

(** [_handle] always returns a response, and an error envelope comes with
    the engine untouched. *)
Lemma handle_returns (clk : clock) (raw : string) (self : engine) :
  exists resp self',
    _handle rt clk raw self = (inr resp, self') /\
    (status_of resp = "error"%string -> self' = self).
Proof.
  rewrite handle_cases.
  destruct (json_loads rt raw) as [msg|]; [|now exists (Err JSONDecodeError), self].
  destruct (command rt msg) as [e|cmd]; [now exists (Err e), self|].
  destruct (dispatch rt clk msg cmd self) as [[e|data] self'] eqn:E.
  - exists (Err e), self'. split; [reflexivity|]. intros _.
    now apply (dispatch_raise_keeps _ _ _ _ _ _ E).
  - exists (Ok (latency clk) data), self'. split; [reflexivity|].
    simpl. discriminate.
Qed.

Variable w : world.

(** Serving a line returns and leaves the connection as open as it was. *)
Lemma serve_line_returns (line : string) (ss : session) (self : engine) :
  exists ss' self',
    serve_line rt w line ss self = (inr ss', self') /\
    is_open ss' = is_open ss.
Proof.
  unfold serve_line.
  destruct (String.eqb (str_strip rt line) EmptyString).
  - now exists ss, self.
  - unfold bind.
    destruct (handle_returns (clock_at w (handled ss)) (str_strip rt line) self)
      as [resp [self' [-> _]]].
    now exists (_send w resp ss), self'.
Qed.

Lemma drain_returns (fuel : nat) (ss : session) (self : engine) :
  exists ss' self',
    drain rt w fuel ss self = (inr ss', self') /\
    is_open ss' = is_open ss.
Proof.
  revert ss self. induction fuel as [|fuel IH]; intros ss self; simpl.
  - now exists ss, self.
  - destruct (split_newline (buf ss)) as [[line rest]|]; [|now exists ss, self].
    unfold bind.
    destruct (serve_line_returns line
                {| buf := rest; outbox := outbox ss; handled := handled ss;
                   is_open := is_open ss |} self) as [ss1 [s1 [-> Ho1]]].
    destruct (IH ss1 s1) as [ss2 [s2 [-> Ho2]]].
    exists ss2, s2. split; [reflexivity|]. now rewrite Ho2, Ho1.
Qed.

Lemma split_newline_shorter (s line rest : string) :
  split_newline s = Some (line, rest) ->
  (String.length rest < String.length s)%nat.
Proof.
  revert line. induction s as [|c s IH]; intros line H; simpl in H.
  - discriminate.
  - destruct (Ascii.eqb c newline).
    + injection H as _ <-. simpl. lia.
    + destruct (split_newline s) as [[l r]|]; [|discriminate].
      injection H as _ <-. specialize (IH l eq_refl). simpl. lia.
Qed.

Lemma serve_line_buf (line : string) (ss ss' : session)
                     (self self' : engine) :
  serve_line rt w line ss self = (inr ss', self') -> buf ss' = buf ss.
Proof.
  unfold serve_line.
  destruct (String.eqb (str_strip rt line) EmptyString).
  - now intros [= <- _].
  - unfold bind.
    destruct (handle_returns (clock_at w (handled ss)) (str_strip rt line) self)
      as [resp [s1 [-> _]]].
    now intros [= <- _].
Qed.

(** With fuel above the length of the buffer the loop ends because no
    newline is left, not because the fuel is. *)
Lemma drain_exhausts (fuel : nat) (ss : session) (self : engine) :
  (String.length (buf ss) < fuel)%nat ->
  exists ss' self',
    drain rt w fuel ss self = (inr ss', self') /\
    split_newline (buf ss') = None.
Proof.
  revert ss self. induction fuel as [|fuel IH]; intros ss self Hlen;
    [lia|]. simpl.
  destruct (split_newline (buf ss)) as [[line rest]|] eqn:E;
    [|now exists ss, self].
  apply split_newline_shorter in E. unfold bind.
  destruct (serve_line_returns line
              {| buf := rest; outbox := outbox ss; handled := handled ss;
                 is_open := is_open ss |} self) as [ss1 [s1 [Hs _]]].
  rewrite Hs. apply serve_line_buf in Hs. simpl in Hs.
  apply IH. rewrite Hs. lia.
Qed.

(** While [recv] keeps giving text the connection stays open, whatever
    the text is. *)
Lemma reading_stays_open (events : list recv_result) (ss : session)
                         (self : engine) :
  Forall has_text events ->
  exists ss' self',
    reading rt w events ss self = (inr ss', self') /\
    is_open ss' = is_open ss.
Proof.
  revert ss self. induction events as [|ev events IH]; intros ss self H.
  - now exists ss, self.
  - inversion H as [|? ? Hev Hrest]; subst.
    destruct ev as [chunk|e]; [|contradiction]. simpl in Hev. cbn [reading].
    destruct (String.eqb_spec chunk EmptyString) as [->|_]; [congruence|].
    unfold bind.
    destruct (drain_returns (S (String.length (buf ss ++ chunk)))
                {| buf := (buf ss ++ chunk)%string; outbox := outbox ss;
                   handled := handled ss; is_open := is_open ss |} self)
      as [ss1 [s1 [-> Ho1]]].
    destruct (IH ss1 s1 Hrest) as [ss2 [s2 [-> Ho2]]].
    exists ss2, s2. split; [reflexivity|]. now rewrite Ho2, Ho1.
Qed.

Lemma not_known (cmd : string) :
  ~ In cmd known_commands ->
  String.eqb cmd "UPDATE" = false /\ String.eqb cmd "GET_TOP" = false /\
  String.eqb cmd "GET_PLAYER" = false /\ String.eqb cmd "STATS" = false /\
  String.eqb cmd "PING" = false.
Proof.
  unfold known_commands. simpl. intro H.
  repeat split; apply String.eqb_neq; intro E; apply H; subst; tauto.
Qed.

Lemma dispatch_unknown (clk : clock) (msg : json) (cmd : string)
                       (self : engine) :
  ~ In cmd known_commands ->
  dispatch rt clk msg cmd self =
  (inr (ErrorData ("unknown command: " ++ cmd)), self).
Proof.
  intro H. destruct (not_known cmd H) as [H1 [H2 [H3 [H4 H5]]]].
  unfold dispatch. now rewrite H1, H2, H3, H4, H5.
Qed.

(** What [serve_line] does with a line that is not blank. *)
Lemma serve_line_reply (line : string) (ss : session) (self self' : engine)
                       (resp : response) :
  str_strip rt line <> EmptyString ->
  _handle rt (clock_at w (handled ss)) (str_strip rt line) self
    = (inr resp, self') ->
  serve_line rt w line ss self = (inr (_send w resp ss), self').
Proof.
  intros Hne Hh. unfold serve_line.
  destruct (String.eqb_spec (str_strip rt line) EmptyString) as [E|_];
    [contradiction|].
  unfold bind. now rewrite Hh.
Qed.

(** C4, as the handler has it. A frame whose command, upper-cased, is none
    of UPDATE, GET_TOP, GET_PLAYER, STATS, PING is answered with an ok
    envelope whose data is the error payload naming that command; the engine
    is unchanged, and the loop writes the response and goes on with the
    connection as open as it was. *)
Theorem unknown_command_reply
    (line : string) (msg : json) (cmd : string) (ss : session)
    (self : engine) :
  let raw := str_strip rt line in
  let reply := fun clk =>
    Ok (latency clk) (ErrorData ("unknown command: " ++ cmd)) in
  raw <> EmptyString ->
  json_loads rt raw = Some msg ->
  command rt msg = inr cmd ->
  ~ In cmd known_commands ->
  (forall clk, _handle rt clk raw self = (inr (reply clk), self) /\
               status_of (reply clk) = "ok"%string) /\
  exists sent,
    sent = _send w (reply (clock_at w (handled ss))) ss /\
    serve_line rt w line ss self = (inr sent, self) /\
    is_open sent = is_open ss.
Proof.
  intros raw reply Hne Hloads Hcmd Hunknown.
  assert (Hh : forall clk, _handle rt clk raw self = (inr (reply clk), self)).
  { intro clk. rewrite handle_cases, Hloads, Hcmd.
    now rewrite (dispatch_unknown clk msg cmd self Hunknown). }
  split; [intro clk; split; [apply Hh|reflexivity]|].
  eexists. split; [reflexivity|]. split; [|reflexivity].
  apply serve_line_reply; [exact Hne|apply Hh].
Qed.

(** The exception of an error envelope is the one that names the fault of
    the frame. *)
Lemma error_names_the_fault (clk : clock) (raw : string) (self self' : engine)
                            (e : pyexc) :
  _handle rt clk raw self = (inr (Err e), self') ->
  names_the_fault rt clk raw e.
Proof.
  unfold names_the_fault. rewrite handle_cases.
  destruct (json_loads rt raw) as [msg|]; [|now intros [= <-]].
  destruct (command rt msg) as [err|cmd]; [now intros [= <-]|].
  cbv zeta.
  destruct (dispatch rt clk msg cmd self) as [[e0|data] s] eqn:E;
    [|discriminate].
  intros [= <- <-].
  repeat split.
  - intros [-> | ->] Hnone.
    + rewrite dispatch_update in E. unfold item in E at 1.
      rewrite Hnone in E. now injection E as <-.
    + rewrite dispatch_get_player in E. unfold item in E.
      rewrite Hnone in E. now injection E as <-.
  - intros -> Hsome Hnone. rewrite dispatch_update in E. cbv zeta in E.
    unfold item in E.
    destruct (lookup "player_id" (fields_of msg)); [|congruence].
    rewrite Hnone in E. now injection E as <-.
  - intros v err -> Hsome Hv He. rewrite dispatch_update in E. cbv zeta in E.
    unfold item in E.
    destruct (lookup "player_id" (fields_of msg)); [|congruence].
    rewrite Hv, He in E. now injection E as <-.
  - intros v sv sc t -> Hv Hu Hsv Hsc Ht. rewrite dispatch_update in E.
    cbv zeta in E. unfold item in E. rewrite Hv, Hsv, Hsc, Ht in E.
    destruct v; try discriminate; simpl in E; now injection E as <-.
  - intros v -> Hv Hu. rewrite dispatch_get_player in E.
    unfold item in E. rewrite Hv in E.
    destruct v; try discriminate; simpl in E; now injection E as <-.
Qed.

(** Every refused frame makes its branch raise. *)
Lemma malformed_raises (clk : clock) (raw : string) (self : engine) :
  malformed rt raw -> rejects rt clk raw self.
Proof.
  intro H. unfold rejects. rewrite handle_cases.
  assert (Hraise : forall msg cmd,
             (exists e s, dispatch rt clk msg cmd self = (inl e, s)) ->
             exists e,
               match dispatch rt clk msg cmd self with
               | (inl e0, self') => (inr (Err e0), self')
               | (inr data, self') => (inr (Ok (latency clk) data), self')
               end = (@inr pyexc response (Err e), self)).
  { intros msg cmd [e [s E]]. exists e. rewrite E.
    now rewrite (dispatch_raise_keeps clk msg cmd self s e E). }
  destruct H as [Hl | msg e Hl Hc | msg cmd key Hl Hc Hreq Hnone
                 | msg v e Hl Hc Hv He | msg cmd v Hl Hc Hcmd Hv Hu];
    rewrite Hl; try rewrite Hc.
  - now exists JSONDecodeError.
  - now exists e.
  - apply Hraise. simpl in Hreq.
    destruct Hreq as [[= <- <-]|[[= <- <-]|[[= <- <-]|[]]]].
    + rewrite dispatch_update. simpl. unfold item at 1. rewrite Hnone.
      eauto.
    + rewrite dispatch_update. simpl.
      destruct (item (fields_of msg) "player_id"); [eauto|].
      unfold item. rewrite Hnone. eauto.
    + rewrite dispatch_get_player. unfold item. rewrite Hnone. eauto.
  - apply Hraise. rewrite dispatch_update. simpl.
    destruct (item (fields_of msg) "player_id"); [eauto|].
    unfold item. rewrite Hv, He. eauto.
  - apply Hraise. destruct Hcmd as [-> | ->].
    + rewrite dispatch_update. simpl. unfold item at 1. rewrite Hv.
      destruct (item (fields_of msg) "score"); [eauto|].
      destruct (py_int rt _); [eauto|].
      destruct (py_float rt _); [eauto|].
      destruct v; try discriminate; simpl; eauto.
    + rewrite dispatch_get_player. unfold item. rewrite Hv.
      destruct v; try discriminate; simpl; eauto.
Qed.

(** C5, as the handler has it. A frame that does not decode, that decodes
    to a value that is no object or to an object whose cmd is no string,
    that lacks a required field, whose score has no integer value or whose
    player_id cannot be hashed is answered with an error envelope whose
    message is the text of the exception that names the fault, the engine
    is unchanged, and the loop writes the response and goes on with the
    connection as open as it was.  For every frame at all, the handler
    returns a response, and an error envelope always comes with an
    unchanged engine. *)
Theorem malformed_frame_reply (line : string) (ss : session) (self : engine) :
  let raw := str_strip rt line in
  raw <> EmptyString ->
  malformed rt raw ->
  (forall clk, exists e,
     _handle rt clk raw self = (inr (Err e), self) /\
     names_the_fault rt clk raw e) /\
  (exists e sent,
     sent = _send w (Err e) ss /\
     status_of (Err e) = "error"%string /\
     names_the_fault rt (clock_at w (handled ss)) raw e /\
     serve_line rt w line ss self = (inr sent, self) /\
     is_open sent = is_open ss) /\
  (forall clk any self0, exists resp self',
     _handle rt clk any self0 = (inr resp, self') /\
     (status_of resp = "error"%string -> self' = self0)).
Proof.
  intros raw Hne Hbad. split; [|split].
  - intro clk. destruct (malformed_raises clk raw self Hbad) as [e He].
    exists e. split; [exact He|]. now apply (error_names_the_fault _ _ _ _ _ He).
  - destruct (malformed_raises (clock_at w (handled ss)) raw self Hbad)
      as [e He].
    exists e. eexists. split; [reflexivity|]. split; [reflexivity|].
    split; [now apply (error_names_the_fault _ _ _ _ _ He)|].
    split; [|reflexivity]. now apply serve_line_reply.
  - intros clk any self0. apply handle_returns.
Qed.

(** C7. A GET_PLAYER request for an identifier that is not stored is
    answered with an ok envelope whose data is the payload
    [{"error": "player not found"}], and one for a stored identifier with
    an ok envelope whose data is the stored record; the engine is unchanged.
    In an engine that served any updates from its creation on, the
    identifiers not stored are those that never had an accepted update. *)
Theorem get_player_reply
    (clk : clock) (raw : string) (msg : json) (v : json) (k : pykey)
    (self : engine) :
  json_loads rt raw = Some msg ->
  command rt msg = inr "GET_PLAYER"%string ->
  lookup "player_id" (fields_of msg) = Some v ->
  hash_key v = inr k ->
  (dict_get k (_scores self) = None ->
   _handle rt clk raw self =
     (inr (Ok (latency clk) (ErrorData "player not found")), self)) /\
  (forall d, dict_get k (_scores self) = Some d ->
   _handle rt clk raw self = (inr (Ok (latency clk) (PlayerData d)), self)) /\
  (forall calls start,
     self = after calls start ->
     (dict_get k (_scores self) = None <->
      ~ In k (accepted_ids calls start))).
Proof.
  intros Hloads Hcmd Hv Hk.
  assert (Hh : _handle rt clk raw self =
               (inr (Ok (latency clk)
                       match dict_get k (_scores self) with
                       | Some d => PlayerData d
                       | None => ErrorData "player not found"
                       end), self)).
  { rewrite handle_cases, Hloads, Hcmd, dispatch_get_player.
    unfold item. now rewrite Hv, Hk. }
  split; [|split].
  - intro Hnone. now rewrite Hh, Hnone.
  - intros d Hd. now rewrite Hh, Hd.
  - intros calls start ->. apply HistoryFacts.absent_iff_never_accepted.
Qed.

End WithRuntime.

End HandlerFacts.

(** ** Statistics *)

Module StatsFacts.
Import Engine Rate.

Lemma of_int_raises (z : Z) (e : pyexc) :
  PyFloat.of_int z = inl e -> e = OverflowError.
Proof.
  unfold PyFloat.of_int.
  destruct (Z.abs z <? 2 ^ 1024 - 2 ^ 970); [discriminate|].
  now intros [= <-].
Qed.

(** C8, as the engine has it. [stats] reports the number of stored players
    and the counter; its rate is the counter divided by [max(elapsed, 1)],
    [elapsed] being the unrounded time since the start, and the quotient is
    rounded to two decimals. The divisor is never zero, so the division
    never fails, and it is at least 1 whenever [elapsed] is a number. The
    report is returned whenever the counter fits a float. *)
Theorem stats_rate (self : engine) (now : float) :
  let elapsed := (now - _start_time self)%float in
  let divisor := PyFloat.max1 elapsed in
  (PrimFloat.is_nan elapsed = false -> PyFloat.le 1 divisor = true) /\
  PrimFloat.eqb divisor 0 = false /\
  fst (stats now self) <> inl ZeroDivisionError /\
  (forall st s,
     stats now self = (inr st, s) ->
     total_players st = Z.of_nat (List.length (_scores self)) /\
     total_updates st = _update_count self /\
     exists a,
       PyFloat.of_int (_update_count self) = inr a /\
       updates_per_sec st = PyFloat.round (a / divisor)%float 2) /\
  (Z.abs (_update_count self) < 2 ^ 1024 - 2 ^ 970 ->
   exists st, stats now self = (inr st, self)).
Proof.
  intros elapsed divisor.
  split; [apply FloatFacts.max1_ge_one|].
  split; [apply FloatFacts.max1_nonzero|].
  rewrite EngineFacts.stats_cases. fold elapsed. fold divisor. cbv zeta.
  destruct (PyFloat.of_int (_update_count self)) as [e|a] eqn:E.
  - split; [|split].
    + simpl. intros [= He]. apply of_int_raises in E. congruence.
    + discriminate.
    + intro Hsmall. destruct (EngineFacts.of_int_small _ Hsmall) as [a Ha].
      congruence.
  - split; [|split].
    + simpl. discriminate.
    + intros st s [= <- _]. simpl. repeat split. now exists a.
    + intros _. eauto.
Qed.

End StatsFacts.

(** ** The properties on the scenarios *)

Module Checks.
Import Engine Handler History Ranking Rate Scenario.
#[local] Open Scope string_scope.

(** C1 on the tie: an update of p1 stamped 0.5 against the stored 1. *)
Lemma update_stale_rejected_witness :
  update (KStr "p1") (JStr "Ann") 5 0.5 tie_engine =
  (inr {| status := rejected; current_score := 20 |}, tie_engine).
Proof.
  apply (EngineFacts.update_stale_rejected tie_engine (KStr "p1") (JStr "Ann")
           5 0.5 {| Engine.score := 20; Engine.name := JStr "Ann"; ts := 1 |});
    reflexivity.
Defined.

(** C2 on a fresh engine. *)
Lemma lww_monotone_witness :
  exists self',
    run_updates two_calls (init 0) = (inr (map accept_of two_calls), self') /\
    (forall d, two_calls <> [] ->
               dict_get (KStr "p1") (_scores self')
               = Some (stored (last two_calls d))).
Proof.
  apply (EngineFacts.lww_monotone (KStr "p1") two_calls (init 0)).
  - repeat constructor.
  - reflexivity.
  - simpl. discriminate.
Defined.

(** C9 on a fresh engine, with a negative timestamp. *)
Lemma update_new_player_witness :
  update (KStr "p1") (JStr "Ann") 10 (-3) (init 0) =
    (inr {| status := accepted; current_score := 10 |},
     {| _scores := [(KStr "p1", {| Engine.score := 10;
                                   Engine.name := JStr "Ann";
                                   ts := (-3) |})];
        _update_count := 1;
        _start_time := 0 |}) /\
  dict_get (KStr "p1")
    [(KStr "p1", {| Engine.score := 10; Engine.name := JStr "Ann";
                    ts := (-3) |})]
  = Some {| Engine.score := 10; Engine.name := JStr "Ann"; ts := (-3) |}.
Proof.
  apply (EngineFacts.update_new_player (init 0) (KStr "p1") (JStr "Ann")
           10 (-3)).
  reflexivity.
Defined.

(** C3, amended, on the tie with [n = 1]. *)
Lemma get_top_ranking_witness :
  exists top,
    get_top 1 tie_engine = (inr top, tie_engine) /\
    List.length top = Nat.min (Z.to_nat 1) (List.length (_scores tie_engine)) /\
    descending top /\
    ranks_contiguous top /\
    highest_scoring tie_engine top.
Proof.
  apply (RankingFacts.get_top_ranking tie_engine 1). lia.
Defined.

(** C3 as stated fails: on the tie, [get_top 2] returns two rows of
    score 20, and [get_top (-1)] returns one row, more than
    [min(-1, 2)]. *)
Lemma strict_contract_fails :
  ~ strict_contract tie_engine 2 /\ ~ strict_contract tie_engine (-1).
Proof.
  split; intros [top [Htop [Hlen [Hstrict _]]]];
    rewrite RankingFacts.get_top_eq in Htop; injection Htop as <-.
  - inversion Hstrict as [|? ? _ Hall]; subst.
    inversion Hall as [|? ? Hlt _]; subst.
    simpl in Hlt. lia.
  - simpl in Hlen. lia.
Qed.

(** C4, amended, on the frame [{"cmd": "foo"}]. *)
Lemma unknown_command_reply_witness :
  (forall clk,
     _handle ascii_runtime clk frame_foo (init 0) =
       (inr (Ok (latency clk) (ErrorData "unknown command: FOO")), init 0) /\
     status_of (Ok (latency clk) (ErrorData "unknown command: FOO"))
       = "ok"%string) /\
  exists sent,
    sent = _send quiet_world
             (Ok (latency clock_5) (ErrorData "unknown command: FOO"))
             fresh_session /\
    serve_line ascii_runtime quiet_world frame_foo fresh_session (init 0)
      = (inr sent, init 0) /\
    is_open sent = is_open fresh_session.
Proof.
  apply (HandlerFacts.unknown_command_reply ascii_runtime quiet_world
           frame_foo (JObj [("cmd", JStr "foo")]) "FOO" fresh_session
           (init 0)).
  - vm_compute. discriminate.
  - reflexivity.
  - reflexivity.
  - simpl. intuition discriminate.
Defined.

(** C4 as stated fails: the frame [{"cmd": "foo"}] is answered with
    status ok, not with an error envelope. *)
Lemma unknown_command_is_ok :
  _handle ascii_runtime clock_5 frame_foo (init 0) =
    (inr (Ok (latency clock_5) (ErrorData "unknown command: FOO")), init 0) /\
  status_of (Ok (latency clock_5) (ErrorData "unknown command: FOO"))
    <> "error"%string.
Proof.
  split; [reflexivity|]. simpl. discriminate.
Qed.

(** C5, amended, on the frame [{"cmd": "UPDATE", "score": 1}]. *)
Lemma malformed_frame_reply_witness :
  (forall clk, exists e,
     _handle ascii_runtime clk frame_no_player (init 0)
       = (inr (Err e), init 0) /\
     names_the_fault ascii_runtime clk frame_no_player e) /\
  (exists e sent,
     sent = _send quiet_world (Err e) fresh_session /\
     status_of (Err e) = "error"%string /\
     names_the_fault ascii_runtime (clock_at quiet_world (handled fresh_session))
       frame_no_player e /\
     serve_line ascii_runtime quiet_world frame_no_player fresh_session
       (init 0) = (inr sent, init 0) /\
     is_open sent = is_open fresh_session) /\
  (forall clk any self0, exists resp self',
     _handle ascii_runtime clk any self0 = (inr resp, self') /\
     (status_of resp = "error"%string -> self' = self0)).
Proof.
  apply (HandlerFacts.malformed_frame_reply ascii_runtime quiet_world
           frame_no_player fresh_session (init 0)).
  - vm_compute. discriminate.
  - apply (field_missing ascii_runtime _
             (JObj [("cmd", JStr "UPDATE"); ("score", JInt 1)])
             "UPDATE" "player_id").
    + reflexivity.
    + reflexivity.
    + simpl. tauto.
    + reflexivity.
Defined.

(** C5 as stated fails: an UPDATE whose player_id is the number 7, not a
    string, is accepted; the response is ok and the engine has stored the
    player. *)
Lemma numeric_player_id_accepted :
  json_loads ascii_runtime frame_update_7 =
    Some (JObj [("cmd", JStr "UPDATE"); ("player_id", JInt 7);
                ("score", JInt 1); ("ts", JInt 1)]) /\
  player_id_is_text (JObj [("cmd", JStr "UPDATE"); ("player_id", JInt 7);
                           ("score", JInt 1); ("ts", JInt 1)]) = false /\
  _handle ascii_runtime clock_5 frame_update_7 (init 0) =
    (inr (Ok (latency clock_5)
            (UpdateData {| status := accepted; current_score := 1 |}
               [{| Entry.rank := 1; Entry.player_id := KInt 7;
                   Entry.name := JInt 7; Entry.score := 1 |}])),
     {| _scores := [(KInt 7, {| Engine.score := 1; Engine.name := JInt 7;
                                ts := 1 |})];
        _update_count := 1;
        _start_time := 0 |}) /\
  ~ rejects ascii_runtime clock_5 frame_update_7 (init 0).
Proof.
  split; [reflexivity|]. split; [reflexivity|]. split; [reflexivity|].
  intros [e H]. vm_compute in H. discriminate.
Qed.

(** C7 on both sides: the frame [{"cmd": "GET_PLAYER", "player_id": "p9"}]
    on a fresh engine, where p9 was never updated, and on the engine that
    accepted an update for p9, where the stored record is returned. *)
Lemma get_player_reply_witness :
  (_handle ascii_runtime clock_5 frame_get_p9 (init 0) =
     (inr (Ok (latency clock_5) (ErrorData "player not found")), init 0) /\
   ~ In (KStr "p9") (accepted_ids [] 0)) /\
  (_handle ascii_runtime clock_5 frame_get_p9 p9_engine =
     (inr (Ok (latency clock_5)
             (PlayerData {| Engine.score := 30; Engine.name := JStr "Zoe";
                            ts := 1 |})), p9_engine) /\
   In (KStr "p9") (accepted_ids p9_calls 0)).
Proof.
  pose (msg := JObj [("cmd", JStr "GET_PLAYER"); ("player_id", JStr "p9")]).
  destruct (HandlerFacts.get_player_reply ascii_runtime clock_5 frame_get_p9
              msg (JStr "p9") (KStr "p9") (init 0))
    as [Habsent [_ Hnever]]; try reflexivity.
  destruct (HandlerFacts.get_player_reply ascii_runtime clock_5 frame_get_p9
              msg (JStr "p9") (KStr "p9") p9_engine)
    as [_ [Hpresent _]]; try reflexivity.
  split; split.
  - apply Habsent. reflexivity.
  - apply (Hnever [] 0%float); reflexivity.
  - apply Hpresent. reflexivity.
  - simpl. tauto.
Defined.

(** C8 as stated fails: one update in three seconds is reported as 0.33,
    which is not the quotient 1 / max(3.0, 1). *)
Lemma rate_is_rounded :
  (exists st,
     stats 3 one_update_engine = (inr st, one_update_engine) /\
     uptime_seconds st = 3%float /\
     updates_per_sec st = 0x1.51eb851eb851fp-2%float /\
     quotient_of_report st = inr 0x1.5555555555555p-2%float) /\
  ~ plain_quotient one_update_engine 3.
Proof.
  split.
  - eexists. split; [reflexivity|]. repeat split.
  - intros [st [Hst [_ Hq]]]. vm_compute in Hst. injection Hst as <-.
    apply (f_equal (fun r => match r with
                             | inr f => Prim2SF f
                             | inl _ => S754_nan
                             end)) in Hq.
    vm_compute in Hq. discriminate.
Qed.

End Checks.

(** * Further properties *)

(** ** More on the order of floats *)

Module FloatOrder.
Import Notions.

Lemma SFcompare_refl (a : spec_float) :
  a <> S754_nan -> SFcompare a a = Some Eq.
Proof.
  destruct a as [s|s| |s m e]; simpl; intro H; try congruence.
  - now destruct s.
  - change (Pos.compare_cont Eq m m) with (Pos.compare m m).
    rewrite Z.compare_refl, Pos.compare_refl. now destruct s.
Qed.

(** [is_nan] holds of NaN only. *)
Lemma is_nan_true (x : float) :
  PrimFloat.is_nan x = true -> Prim2SF x = S754_nan.
Proof.
  unfold PrimFloat.is_nan. rewrite eqb_spec. unfold SFeqb. intro H.
  destruct (Prim2SF x) as [s|s| |s m e] eqn:E; try reflexivity;
    rewrite SFcompare_refl in H by discriminate; discriminate.
Qed.

(** Nothing is greater than NaN, and NaN is greater than nothing. *)
Lemma gt_nan (a b : float) :
  PrimFloat.is_nan a = true \/ PrimFloat.is_nan b = true ->
  PyFloat.gt a b = false.
Proof.
  unfold PyFloat.gt. rewrite ltb_spec. unfold SFltb.
  intros [H|H]; apply is_nan_true in H; rewrite H.
  - now destruct (Prim2SF b).
  - reflexivity.
Qed.

Lemma lex_lt (e1 e2 : Z) (m1 m2 : positive) :
  lex e1 m1 e2 m2 = Lt <-> (e1 < e2 \/ (e1 = e2 /\ (m1 < m2)%positive)).
Proof.
  unfold lex. change (Pos.compare_cont Eq m1 m2) with (Pos.compare m1 m2).
  destruct (Z.compare_spec e1 e2); destruct (Pos.compare_spec m1 m2);
    split; intro; try discriminate; try reflexivity; lia.
Qed.

Lemma lex_gt (e1 e2 : Z) (m1 m2 : positive) :
  lex e1 m1 e2 m2 = Gt <-> (e2 < e1 \/ (e1 = e2 /\ (m2 < m1)%positive)).
Proof.
  unfold lex. change (Pos.compare_cont Eq m1 m2) with (Pos.compare m1 m2).
  destruct (Z.compare_spec e1 e2); destruct (Pos.compare_spec m1 m2);
    split; intro; try discriminate; try reflexivity; lia.
Qed.

Lemma SFcompare_finite (s1 s2 : bool) (m1 m2 : positive) (e1 e2 : Z) :
  SFcompare (S754_finite s1 m1 e1) (S754_finite s2 m2 e2) =
  Some match s1, s2 with
       | true, false => Lt
       | false, true => Gt
       | false, false => lex e1 m1 e2 m2
       | true, true => CompOpp (lex e1 m1 e2 m2)
       end.
Proof.
  unfold lex. simpl. destruct s1, s2; try reflexivity.
  now destruct (e1 ?= e2).
Qed.

Lemma SFcompare_lt_trans (a b c : spec_float) :
  SFcompare a b = Some Lt -> SFcompare b c = Some Lt ->
  SFcompare a c = Some Lt.
Proof.
  destruct a as [sa|sa| |sa ma ea], b as [sb|sb| |sb mb eb],
           c as [sc|sc| |sc mc ec];
    rewrite ?SFcompare_finite;
    try (simpl; discriminate);
    try (destruct sa; simpl; discriminate);
    try (destruct sb; simpl; discriminate);
    try (destruct sc; simpl; discriminate);
    try (destruct sa, sb; simpl; discriminate);
    try (destruct sb, sc; simpl; discriminate);
    try (destruct sa, sc; simpl; try discriminate; reflexivity);
    try (destruct sa, sb, sc; simpl; try discriminate; reflexivity).
  destruct sa, sb, sc; try discriminate; try reflexivity;
    intros [= H1] [= H2]; f_equal.
  - apply (f_equal CompOpp) in H1, H2. rewrite CompOpp_involutive in H1, H2.
    simpl in H1, H2. apply lex_gt in H1, H2.
    change Lt with (CompOpp Gt). f_equal. apply lex_gt. lia.
  - apply lex_lt in H1, H2. apply lex_lt. lia.
Qed.

(** [>] on floats is transitive. *)
Lemma gt_trans (a b c : float) :
  PyFloat.gt a b = true -> PyFloat.gt b c = true -> PyFloat.gt a c = true.
Proof.
  unfold PyFloat.gt. rewrite !ltb_spec. unfold SFltb.
  destruct (SFcompare (Prim2SF b) (Prim2SF a)) as [[]|] eqn:E1;
    try discriminate.
  destruct (SFcompare (Prim2SF c) (Prim2SF b)) as [[]|] eqn:E2;
    try discriminate.
  intros _ _. now rewrite (SFcompare_lt_trans _ _ _ E2 E1).
Qed.

End FloatOrder.

(** ** More on the engine *)

Module EngineLaws.
Import Engine DictFacts History EngineFacts.
Import Notions.

(** Writing keeps the keys where they are; a new key goes last. *)
Lemma dict_set_keys (k : pykey) (v : record) (d : list (pykey * record)) :
  map fst (dict_set k v d) =
  match dict_get k d with
  | Some _ => map fst d
  | None => map fst d ++ [k]
  end.
Proof.
  induction d as [|[k' v'] d IH]; simpl; [reflexivity|].
  destruct (key_eqb k k'); simpl; [reflexivity|].
  rewrite IH. now destruct (dict_get k d).
Qed.

Lemma dict_get_keys (k : pykey) (d : list (pykey * record)) :
  dict_get k d = None <-> ~ In k (map fst d).
Proof.
  induction d as [|[k' v'] d IH]; simpl; [tauto|].
  destruct (key_eqb k k') eqn:E.
  - apply key_eqb_eq in E. subst. split; [discriminate|tauto].
  - rewrite IH. split; [|tauto]. intros H [H1|H1]; [|tauto].
    subst. now rewrite key_eqb_refl in E.
Qed.

(** X1. Whatever [update] answers, the [current_score] of the answer is
    the score that [get_player] finds for that player afterwards. *)
Theorem current_score_is_stored
    (player_id : pykey) (name : json) (score : Z) (timestamp : float)
    (self : engine) :
  exists r self' d,
    update player_id name score timestamp self = (inr r, self') /\
    get_player player_id self' = (inr (Some d), self') /\
    Engine.score d = current_score r.
Proof.
  change (update player_id name score timestamp)
    with (apply (mkCall player_id name score timestamp)).
  rewrite update_cases. simpl.
  destruct (dict_get player_id (_scores self)) as [old|] eqn:Hold.
  - destruct (PyFloat.gt timestamp (ts old)).
    + do 3 eexists. split; [reflexivity|].
      unfold get_player, bind, get_self, ret. simpl.
      rewrite dict_get_set_same. split; reflexivity.
    + do 3 eexists. split; [reflexivity|].
      unfold get_player, bind, get_self, ret. simpl.
      rewrite Hold. split; reflexivity.
  - do 3 eexists. split; [reflexivity|].
    unfold get_player, bind, get_self, ret. simpl.
    rewrite dict_get_set_same. split; reflexivity.
Qed.

(** X2. An update leaves every other player's record, the start time and
    the order of the identifiers already in the dictionary as they were;
    the dictionary gains at most the updated identifier, at its end. *)
Theorem update_touches_one_player
    (player_id : pykey) (name : json) (score : Z) (timestamp : float)
    (self : engine) :
  exists r self' tail,
    update player_id name score timestamp self = (inr r, self') /\
    (forall k, k <> player_id ->
               dict_get k (_scores self') = dict_get k (_scores self)) /\
    _start_time self' = _start_time self /\
    map fst (_scores self') = map fst (_scores self) ++ tail /\
    (tail = [] \/ tail = [player_id]).
Proof.
  change (update player_id name score timestamp)
    with (apply (mkCall player_id name score timestamp)).
  rewrite update_cases. simpl.
  assert (Hw : forall k, k <> player_id ->
             dict_get k (dict_set player_id
                           (stored (mkCall player_id name score timestamp))
                           (_scores self)) = dict_get k (_scores self)).
  { intros k Hk. now apply dict_get_set_other. }
  pose proof (dict_set_keys player_id
                (stored (mkCall player_id name score timestamp))
                (_scores self)) as Hkeys.
  destruct (dict_get player_id (_scores self)) as [old|] eqn:Hold.
  - destruct (PyFloat.gt timestamp (ts old)).
    + exists (accept_of (mkCall player_id name score timestamp)).
      eexists. exists []. split; [reflexivity|]. simpl.
      rewrite app_nil_r. repeat split; auto.
    + eexists. exists self, []. split; [reflexivity|].
      rewrite app_nil_r. repeat split; auto.
  - exists (accept_of (mkCall player_id name score timestamp)).
    eexists. exists [player_id]. split; [reflexivity|]. simpl.
    repeat split; auto.
Qed.

(** One call: a stored player stays stored, with the record it had or one
    of a greater timestamp. *)
Lemma update_keeps_or_newer (c : call) (self : engine) (k : pykey)
                            (old : record) :
  dict_get k (_scores self) = Some old ->
  exists r self' new,
    apply c self = (inr r, self') /\
    dict_get k (_scores self') = Some new /\
    (new = old \/ PyFloat.gt (ts new) (ts old) = true).
Proof.
  intro Hold. rewrite update_cases.
  destruct (key_eqb k (player_id c)) eqn:E.
  - apply key_eqb_eq in E. subst k. rewrite Hold.
    destruct (PyFloat.gt (timestamp c) (ts old)) eqn:G.
    + do 3 eexists. split; [reflexivity|]. split.
      * apply dict_get_set_same.
      * right. exact G.
    + do 3 eexists. split; [reflexivity|]. split; [exact Hold|now left].
  - assert (Hne : k <> player_id c).
    { intro H. subst k. now rewrite key_eqb_refl in E. }
    assert (Hw : dict_get k (_scores (written c self)) = Some old).
    { unfold written. simpl. now rewrite dict_get_set_other. }
    destruct (dict_get (player_id c) (_scores self)) as [o|].
    + destruct (PyFloat.gt (timestamp c) (ts o)).
      * do 3 eexists. split; [reflexivity|]. split; [exact Hw|now left].
      * do 3 eexists. split; [reflexivity|]. split; [exact Hold|now left].
    + do 3 eexists. split; [reflexivity|]. split; [exact Hw|now left].
Qed.

(** Any calls: the same. *)
Lemma run_updates_keeps_or_newer
    (calls : list call) (self : engine) (k : pykey) (old : record) :
  dict_get k (_scores self) = Some old ->
  exists rs self' new,
    run_updates calls self = (inr rs, self') /\
    dict_get k (_scores self') = Some new /\
    (new = old \/ PyFloat.gt (ts new) (ts old) = true).
Proof.
  revert self old. induction calls as [|c rest IH]; intros self old Hold.
  - exists [], self, old. simpl. repeat split; auto.
  - destruct (update_keeps_or_newer c self k old Hold)
      as [r [s1 [mid [Happ [Hmid Hord]]]]].
    destruct (IH s1 mid Hmid) as [rs [s2 [new [Hrun [Hnew Hord2]]]]].
    exists (r :: rs), s2, new. rewrite run_updates_cons, Happ, Hrun.
    split; [reflexivity|]. split; [exact Hnew|].
    destruct Hord as [->|G1]; [exact Hord2|].
    destruct Hord2 as [->|G2]; [now right|].
    right. exact (FloatOrder.gt_trans _ _ _ G2 G1).
Qed.

(** X3. Over any sequence of updates a stored player is never removed and
    its timestamp never goes back: afterwards the player has the record it
    had, or a record with a greater timestamp. *)
Theorem timestamps_never_go_back
    (calls : list call) (self : engine) (k : pykey) (old : record) :
  dict_get k (_scores self) = Some old ->
  exists rs self' new,
    run_updates calls self = (inr rs, self') /\
    dict_get k (_scores self') = Some new /\
    (new = old \/ PyFloat.gt (ts new) (ts old) = true).
Proof.
  intro Hold. now apply run_updates_keeps_or_newer.
Qed.

(** X4. An update whose timestamp is NaN never replaces a stored record:
    it is rejected with the stored score and the engine is unchanged. *)
Theorem nan_update_rejected
    (player_id : pykey) (name : json) (score : Z) (timestamp : float)
    (self : engine) (old : record) :
  dict_get player_id (_scores self) = Some old ->
  PrimFloat.is_nan timestamp = true ->
  update player_id name score timestamp self =
  (inr {| status := rejected; current_score := Engine.score old |}, self).
Proof.
  intros Hold Hnan.
  change (update player_id name score timestamp)
    with (apply (mkCall player_id name score timestamp)).
  rewrite update_cases. simpl. rewrite Hold.
  rewrite FloatOrder.gt_nan; [reflexivity|now left].
Qed.

(** X5. A record stored with a NaN timestamp is final: every later update
    to that player is rejected, so after any sequence of updates the
    record is still the same. *)
Theorem nan_record_is_final
    (calls : list call) (self : engine) (k : pykey) (old : record) :
  dict_get k (_scores self) = Some old ->
  PrimFloat.is_nan (ts old) = true ->
  exists rs self',
    run_updates calls self = (inr rs, self') /\
    dict_get k (_scores self') = Some old.
Proof.
  intros Hold Hnan.
  destruct (run_updates_keeps_or_newer calls self k old Hold)
    as [rs [self' [new [Hrun [Hnew [->|G]]]]]].
  - now exists rs, self'.
  - rewrite FloatOrder.gt_nan in G by now right. discriminate.
Qed.

Lemma written_well_formed (c : call) (self : engine) :
  well_formed self -> well_formed (written c self).
Proof.
  intros [Hnd Hle]. unfold well_formed, written. simpl.
  rewrite dict_set_keys, dict_set_length.
  destruct (dict_get (player_id c) (_scores self)) eqn:E.
  - split; [exact Hnd|lia].
  - split; [|lia].
    apply dict_get_keys in E.
    apply (Permutation_NoDup (l := player_id c :: map fst (_scores self))).
    + apply Permutation_cons_append.
    + now constructor.
Qed.

Lemma run_updates_well_formed (calls : list call) (self : engine) :
  well_formed self ->
  exists rs self',
    run_updates calls self = (inr rs, self') /\ well_formed self'.
Proof.
  revert self. induction calls as [|c rest IH]; intros self Hwf.
  - now exists [], self.
  - rewrite run_updates_cons, update_cases.
    destruct (dict_get (player_id c) (_scores self)) as [old|].
    + destruct (PyFloat.gt (timestamp c) (ts old)).
      * destruct (IH _ (written_well_formed c self Hwf))
          as [rs [s2 [-> H2]]]. eauto.
      * destruct (IH _ Hwf) as [rs [s2 [-> H2]]]. eauto.
    + destruct (IH _ (written_well_formed c self Hwf))
        as [rs [s2 [-> H2]]]. eauto.
Qed.

Lemma after_well_formed (calls : list call) (start : float) :
  well_formed (after calls start).
Proof.
  unfold after.
  destruct (run_updates_well_formed calls (init start)) as [rs [s [-> H]]];
    [|exact H].
  split; simpl; [constructor|lia].
Qed.

(** X6. In an engine that served any updates from its creation on, no
    identifier is stored twice and there are never more players than
    counted updates, which is what [stats] reports too. *)
Theorem players_distinct_and_counted (calls : list call) (start : float) :
  NoDup (map fst (_scores (after calls start))) /\
  Z.of_nat (List.length (_scores (after calls start)))
    <= _update_count (after calls start) /\
  (forall now st s,
     stats now (after calls start) = (inr st, s) ->
     total_players st <= total_updates st).
Proof.
  destruct (after_well_formed calls start) as [Hnd Hle].
  split; [exact Hnd|]. split; [exact Hle|].
  intros now st s. rewrite stats_cases. simpl.
  destruct (PyFloat.of_int (_update_count (after calls start)));
    [discriminate|].
  intros [= <- _]. exact Hle.
Qed.

End EngineLaws.

(** ** More on the ranking *)

Module RankingLaws.
Import Engine DictFacts Ranking RankingFacts.
Import Notions.

Lemma assign_ranks_firstn (k : nat) (i : Z) (l : list Entry.t) :
  assign_ranks i (firstn k l) = firstn k (assign_ranks i l).
Proof.
  revert i l. induction k as [|k IH]; intros i [|e l]; simpl;
    try reflexivity.
  now rewrite IH.
Qed.

Lemma ranked_length (self : engine) :
  List.length (sorted_desc (rows (_scores self))) = List.length (_scores self).
Proof.
  now rewrite <- (Permutation_length (sorted_desc_perm _)), rows_length.
Qed.

Lemma get_top_firstn (n : Z) (self : engine) :
  get_top n self =
  (inr (firstn (kept n (List.length (_scores self))) (full_ranking self)),
   self).
Proof.
  rewrite get_top_eq. unfold full_ranking, slice_to, kept.
  rewrite ranked_length. f_equal. f_equal.
  destruct (0 <=? n); rewrite assign_ranks_firstn; [|reflexivity].
  rewrite <- (ranked_length self), <- assign_ranks_length with (i := 1).
  set (l := assign_ranks 1 _).
  destruct (Nat.le_ge_cases (Z.to_nat n) (List.length l)) as [H|H].
  - now rewrite Nat.min_l.
  - rewrite Nat.min_r by exact H. rewrite firstn_all.
    now apply firstn_all2.
Qed.

(** X7. Asking for more rows only adds rows below: for [0 <= n <= m] the
    result of [get_top n] is the first [n] rows of the result of
    [get_top m], ranks included. *)
Theorem get_top_prefix (self : engine) (n m : Z) :
  0 <= n <= m ->
  exists top_n top_m,
    get_top n self = (inr top_n, self) /\
    get_top m self = (inr top_m, self) /\
    top_n = firstn (Z.to_nat n) top_m.
Proof.
  intros [Hn Hm]. rewrite !get_top_firstn. do 2 eexists.
  split; [reflexivity|]. split; [reflexivity|].
  unfold kept. destruct (Z.leb_spec 0 n); [|lia].
  destruct (Z.leb_spec 0 m); [|lia].
  rewrite firstn_firstn. f_equal. lia.
Qed.

(** X8. A negative [n] does not give an empty ranking: [get_top n] returns
    the full ranking without its last [-n] rows, that is
    [max(0, player_count + n)] rows, ranked from 1. *)
Theorem get_top_negative (self : engine) (n : Z) :
  n < 0 ->
  exists top all,
    get_top n self = (inr top, self) /\
    get_top (Z.of_nat (List.length (_scores self))) self = (inr all, self) /\
    top = firstn (List.length all - Z.to_nat (- n)) all /\
    Z.of_nat (List.length top) =
      Z.max 0 (Z.of_nat (List.length (_scores self)) + n).
Proof.
  intro Hn. rewrite !get_top_firstn. do 2 eexists.
  split; [reflexivity|]. split; [reflexivity|].
  assert (Hfull : List.length (full_ranking self)
                  = List.length (_scores self)).
  { unfold full_ranking. now rewrite assign_ranks_length, ranked_length. }
  unfold kept. destruct (Z.leb_spec 0 n); [lia|].
  destruct (Z.leb_spec 0 (Z.of_nat (List.length (_scores self)))); [|lia].
  rewrite Nat2Z.id, Nat.min_id.
  rewrite <- Hfull at 2 3. rewrite firstn_all.
  split; [now rewrite Hfull|].
  rewrite length_firstn, Hfull. lia.
Qed.

Lemma with_score_insert (s : Z) (x : Entry.t) (l : list Entry.t) :
  with_score s (insert_desc x l) =
  if Entry.score x =? s then x :: with_score s l else with_score s l.
Proof.
  unfold with_score. induction l as [|y l IH]; simpl; [reflexivity|].
  destruct (Z.leb_spec (Entry.score y) (Entry.score x)) as [Hle|Hgt]; simpl.
  - reflexivity.
  - rewrite IH.
    destruct (Z.eqb_spec (Entry.score x) s) as [Hx|Hx];
      destruct (Z.eqb_spec (Entry.score y) s) as [Hy|Hy];
      try reflexivity; lia.
Qed.

(** The sort is stable: rows of one score keep their order. *)
Lemma with_score_sorted (s : Z) (l : list Entry.t) :
  with_score s (sorted_desc l) = with_score s l.
Proof.
  induction l as [|x l IH]; simpl; [reflexivity|].
  rewrite with_score_insert, IH. unfold with_score. simpl.
  now destruct (Entry.score x =? s).
Qed.

Lemma with_score_ranked (s : Z) (i : Z) (l : list Entry.t) :
  map Entry.player_id (with_score s (assign_ranks i l)) =
  map Entry.player_id (with_score s l).
Proof.
  unfold with_score. revert i. induction l as [|e l IH]; intro i; simpl;
    [reflexivity|].
  destruct (Entry.score e =? s); simpl; now rewrite IH.
Qed.

Lemma with_score_rows (s : Z) (d : list (pykey * record)) :
  map Entry.player_id (with_score s (rows d)) =
  map fst (filter (fun kv => score (snd kv) =? s) d).
Proof.
  unfold with_score, rows. induction d as [|[k r] d IH]; simpl;
    [reflexivity|].
  destruct (score r =? s); simpl; now rewrite IH.
Qed.

(** X9. Ties are ranked in the order of the dictionary, which is the order
    in which the players were first stored: among the rows of a ranking of
    all players, those with one score list their players as the dictionary
    does. *)
Theorem ties_in_dictionary_order (self : engine) (n s : Z) :
  Z.of_nat (List.length (_scores self)) <= n ->
  exists top,
    get_top n self = (inr top, self) /\
    map Entry.player_id (with_score s top) =
    map fst (filter (fun kv => score (snd kv) =? s) (_scores self)).
Proof.
  intro Hn. rewrite get_top_firstn. eexists. split; [reflexivity|].
  unfold kept. destruct (Z.leb_spec 0 n); [|lia].
  rewrite Nat.min_r by lia.
  assert (Hfull : List.length (full_ranking self)
                  = List.length (_scores self)).
  { unfold full_ranking. now rewrite assign_ranks_length, ranked_length. }
  rewrite <- Hfull, firstn_all. unfold full_ranking.
  now rewrite with_score_ranked, with_score_sorted, with_score_rows.
Qed.

Lemma in_assign_ranks (e : Entry.t) (i : Z) (l : list Entry.t) :
  In e (assign_ranks i l) ->
  exists e0 j, In e0 l /\ e = Entry.set_rank j e0.
Proof.
  revert i. induction l as [|x l IH]; intro i; simpl; [tauto|].
  intros [<-|H].
  - exists x, i. tauto.
  - destruct (IH _ H) as [e0 [j [H0 ->]]]. exists e0, j. tauto.
Qed.

Lemma assign_ranks_in (e0 : Entry.t) (i : Z) (l : list Entry.t) :
  In e0 l -> exists j, In (Entry.set_rank j e0) (assign_ranks i l).
Proof.
  revert i. induction l as [|x l IH]; intro i; simpl; [tauto|].
  intros [->|H].
  - exists i. now left.
  - destruct (IH (i + 1) H) as [j Hj]. exists j. now right.
Qed.

Lemma in_dict_get (k : pykey) (r : record) (d : list (pykey * record)) :
  NoDup (map fst d) -> In (k, r) d -> dict_get k d = Some r.
Proof.
  induction d as [|[k' r'] d IH]; simpl; [tauto|].
  intros Hnd [[= -> ->]|Hin].
  - now rewrite key_eqb_refl.
  - inversion Hnd as [|? ? Hnotin Hnd']; subst.
    destruct (key_eqb k k') eqn:E.
    + apply key_eqb_eq in E. subst k'. exfalso. apply Hnotin.
      now apply (in_map fst) in Hin.
    + now apply IH.
Qed.

(** X10. Every row of a ranking is a stored player with the stored score
    and name, provided no identifier is stored twice. *)
Theorem rows_are_stored_players (self : engine) (n : Z) :
  NoDup (map fst (_scores self)) ->
  exists top,
    get_top n self = (inr top, self) /\
    forall e, In e top ->
      exists r,
        dict_get (Entry.player_id e) (_scores self) = Some r /\
        score r = Entry.score e /\ name r = Entry.name e.
Proof.
  intro Hnd. rewrite get_top_firstn. eexists. split; [reflexivity|].
  intros e He.
  assert (He' : In e (full_ranking self)).
  { rewrite <- (firstn_skipn (kept n (List.length (_scores self)))
                  (full_ranking self)).
    apply in_or_app. now left. }
  apply in_assign_ranks in He' as [e0 [j [H0 ->]]].
  apply (Permutation_in _ (Permutation_sym (sorted_desc_perm _))) in H0.
  unfold rows in H0. apply in_map_iff in H0 as [[k r] [<- Hin]].
  exists r. simpl. split; [now apply in_dict_get|]. split; reflexivity.
Qed.

(** A stored player has a row in the ranking of all players. *)
Lemma full_ranking_row (self : engine) (k : pykey) (r : record) :
  dict_get k (_scores self) = Some r ->
  exists j,
    In {| Entry.rank := j; Entry.player_id := k;
          Entry.name := name r; Entry.score := score r |}
       (full_ranking self).
Proof.
  intro Hget. apply dict_get_in in Hget.
  assert (Hrow : In {| Entry.rank := 0; Entry.player_id := k;
                       Entry.name := name r; Entry.score := score r |}
                    (sorted_desc (rows (_scores self)))).
  { apply (Permutation_in _ (sorted_desc_perm _)).
    unfold rows. apply in_map_iff. exists (k, r). tauto. }
  destruct (assign_ranks_in _ 1 _ Hrow) as [j Hj]. now exists j.
Qed.

Lemma full_ranking_length (self : engine) :
  List.length (full_ranking self) = List.length (_scores self).
Proof. unfold full_ranking. now rewrite assign_ranks_length, ranked_length. Qed.

Lemma firstn_kept_all (self : engine) (n : Z) :
  Z.of_nat (List.length (_scores self)) <= n ->
  firstn (kept n (List.length (_scores self))) (full_ranking self)
  = full_ranking self.
Proof.
  intro Hn. unfold kept. destruct (Z.leb_spec 0 n); [|lia].
  rewrite Nat.min_r by lia.
  now rewrite <- full_ranking_length, firstn_all.
Qed.

(** With [n] at least the number of players, [get_top n] is the ranking of
    all of them. *)
Lemma get_top_all (self : engine) (n : Z) :
  Z.of_nat (List.length (_scores self)) <= n ->
  get_top n self = (inr (full_ranking self), self).
Proof.
  intro Hn. now rewrite get_top_firstn, firstn_kept_all.
Qed.

(** X11. A ranking asked for at least as many rows as there are players
    leaves nobody out: every stored player has a row with its score and
    name. *)
Theorem full_ranking_has_everyone
    (self : engine) (n : Z) (k : pykey) (r : record) :
  Z.of_nat (List.length (_scores self)) <= n ->
  dict_get k (_scores self) = Some r ->
  exists top e,
    get_top n self = (inr top, self) /\
    In e top /\
    Entry.player_id e = k /\ Entry.score e = score r /\
    Entry.name e = name r.
Proof.
  intros Hn Hget. rewrite (get_top_all self n Hn).
  destruct (full_ranking_row self k r Hget) as [j Hj].
  eexists. eexists. split; [reflexivity|]. split; [exact Hj|].
  repeat split.
Qed.

End RankingLaws.

(** ** More on the handler *)

Module HandlerLaws.
Import Engine Handler History DictFacts EngineFacts HandlerFacts RankingLaws.
Import Notions.

Section WithRuntime.

Variable rt : runtime.

(** Every NaN is the same key, so that a NaN identifier is found again. *)
Lemma nan_is_one_key (f g : float) :
  PrimFloat.is_nan f = true -> PrimFloat.is_nan g = true ->
  hash_key (JFloat f) = hash_key (JFloat g).
Proof.
  intros Hf Hg. apply FloatOrder.is_nan_true in Hf, Hg.
  rewrite <- (SF2Prim_Prim2SF f), <- (SF2Prim_Prim2SF g).
  now rewrite Hf, Hg.
Qed.

(** Every branch but UPDATE returns the engine it was given. *)
Lemma dispatch_reads (clk : clock) (msg : json) (cmd : string)
                     (self : engine) :
  cmd <> "UPDATE"%string ->
  snd (dispatch rt clk msg cmd self) = self.
Proof.
  intro Hne. apply String.eqb_neq in Hne. unfold dispatch. rewrite Hne.
  destruct (String.eqb cmd "GET_TOP").
  { unfold bind, lift, get_top, get_self, ret.
    now destruct (py_int rt _). }
  destruct (String.eqb cmd "GET_PLAYER" ).
  { unfold bind, lift, key_of, get_self, get_player, ret. simpl.
    destruct (item (fields_of msg) "player_id"); [reflexivity|].
    destruct (hash_key _); [reflexivity|].
    now destruct (dict_get _ _). }
  destruct (String.eqb cmd "STATS").
  { unfold bind. rewrite stats_cases. simpl.
    now destruct (PyFloat.of_int (_update_count self)). }
  now destruct (String.eqb cmd "PING").
Qed.

(** X12. Only UPDATE writes: a frame that does not decode to an UPDATE
    request leaves the engine as it was, whatever the response is. *)
Theorem only_update_writes (clk : clock) (raw : string) (self : engine) :
  (forall msg, json_loads rt raw = Some msg ->
               command rt msg <> inr "UPDATE"%string) ->
  snd (_handle rt clk raw self) = self.
Proof.
  intro H. rewrite handle_cases.
  destruct (json_loads rt raw) as [msg|]; [|reflexivity].
  specialize (H msg eq_refl).
  destruct (command rt msg) as [e|cmd]; [reflexivity|].
  assert (Hne : cmd <> "UPDATE"%string) by congruence.
  pose proof (dispatch_reads clk msg cmd self Hne) as Hd.
  destruct (dispatch rt clk msg cmd self) as [[e|data] s']; exact Hd.
Qed.

(** The response to a well-formed UPDATE: the engine's answer and the top
    ten of the engine as the update left it. *)
Lemma handle_update (clk : clock) (raw : string) (self : engine)
                    (msg : json) (k : pykey) (nm : json) (sc : Z)
                    (t : float) :
  json_loads rt raw = Some msg ->
  command rt msg = inr "UPDATE"%string ->
  update_request rt clk msg k nm sc t ->
  exists r self',
    update k nm sc t self = (inr r, self') /\
    _handle rt clk raw self =
      (inr (Ok (latency clk)
              (UpdateData r
                 (firstn (kept TOP_N (List.length (_scores self')))
                         (full_ranking self')))), self').
Proof.
  intros Hl Hc [[v [Hv [Hk Hnm]]] [sv [Hsv Hsc]] Ht].
  destruct (update_returns k nm sc t self) as [r [self' Hu]].
  exists r, self'. split; [exact Hu|].
  rewrite handle_cases, Hl, Hc, dispatch_update. simpl.
  unfold item. rewrite Hv, Hsv, Hsc, Ht, Hk, <- Hnm, Hu.
  pose proof (get_top_firstn TOP_N self') as Htop.
  rewrite RankingFacts.get_top_eq in Htop. injection Htop as Htop.
  now rewrite Htop.
Qed.

(** X13. A stale UPDATE is not an error: the response is an ok envelope
    whose data says [rejected] and carries the score stored when the update
    was compared, with a ranking, and the request writes nothing to the
    engine. *)
Theorem stale_update_reply
    (clk : clock) (raw : string) (self : engine) (msg : json) (k : pykey)
    (nm : json) (sc : Z) (t : float) (old : record) :
  json_loads rt raw = Some msg ->
  command rt msg = inr "UPDATE"%string ->
  update_request rt clk msg k nm sc t ->
  dict_get k (_scores self) = Some old ->
  PyFloat.le t (ts old) = true ->
  exists top,
    _handle rt clk raw self =
      (inr (Ok (latency clk)
              (UpdateData {| status := rejected;
                             current_score := Engine.score old |} top)), self).
Proof.
  intros Hl Hc Hreq Hold Hle.
  destruct (handle_update clk raw self msg k nm sc t Hl Hc Hreq)
    as [r [self' [Hu Hh]]].
  change (update k nm sc t) with (apply (mkCall k nm sc t)) in Hu.
  rewrite update_cases in Hu. simpl in Hu. rewrite Hold in Hu.
  rewrite (FloatFacts.le_not_gt _ _ Hle) in Hu. injection Hu as <- <-.
  eexists. exact Hh.
Qed.

(** X14. An UPDATE without [name] and [ts] for a player that is not stored
    is accepted, and the record stored has the player_id as its name and
    the server's clock reading as its timestamp. *)
Theorem update_defaults
    (clk : clock) (raw : string) (self : engine) (msg : json) (v : json)
    (k : pykey) (sv : json) (sc : Z) :
  json_loads rt raw = Some msg ->
  command rt msg = inr "UPDATE"%string ->
  lookup "player_id" (fields_of msg) = Some v ->
  hash_key v = inr k ->
  lookup "score" (fields_of msg) = Some sv ->
  py_int rt sv = inr sc ->
  lookup "name" (fields_of msg) = None ->
  lookup "ts" (fields_of msg) = None ->
  dict_get k (_scores self) = None ->
  exists top,
    _handle rt clk raw self =
      (inr (Ok (latency clk)
              (UpdateData {| status := accepted; current_score := sc |}
                          top)),
       {| _scores := _scores self ++
                     [(k, {| Engine.score := sc; Engine.name := v;
                             ts := time_time clk |})];
          _update_count := _update_count self + 1;
          _start_time := _start_time self |}).
Proof.
  intros Hl Hc Hv Hk Hsv Hsc Hname Hts Hnone.
  assert (Hreq : update_request rt clk msg k v sc (time_time clk)).
  { split.
    - exists v. unfold get_default. now rewrite Hname.
    - now exists sv.
    - unfold get_default. now rewrite Hts. }
  destruct (handle_update clk raw self msg k v sc (time_time clk) Hl Hc Hreq)
    as [r [self' [Hu Hh]]].
  change (update k v sc (time_time clk))
    with (apply (mkCall k v sc (time_time clk))) in Hu.
  rewrite update_cases in Hu. simpl in Hu. rewrite Hnone in Hu.
  injection Hu as <- <-. eexists. rewrite Hh.
  unfold written, stored. simpl. rewrite (dict_set_absent _ _ _ Hnone).
  reflexivity.
Qed.

(** With no other session in between, [update_then_top] is what the
    handler does with a well-formed UPDATE. *)
Lemma handle_update_alone (clk : clock) (raw : string) (self : engine)
                          (msg : json) (k : pykey) (nm : json) (sc : Z)
                          (t : float) :
  json_loads rt raw = Some msg ->
  command rt msg = inr "UPDATE"%string ->
  update_request rt clk msg k nm sc t ->
  exists r top self',
    update_then_top [] k nm sc t self = (inr (r, top), self') /\
    _handle rt clk raw self =
      (inr (Ok (latency clk) (UpdateData r top)), self').
Proof.
  intros Hl Hc Hreq.
  destruct (handle_update clk raw self msg k nm sc t Hl Hc Hreq)
    as [r [self' [Hu Hh]]].
  exists r. eexists. exists self'. split; [|exact Hh].
  unfold update_then_top, bind. rewrite Hu. simpl. unfold ret.
  pose proof (get_top_firstn TOP_N self') as Htop.
  rewrite RankingFacts.get_top_eq in Htop. injection Htop as Htop.
  now rewrite Htop.
Qed.

End WithRuntime.

(** A sequence of updates returns and adds at most one player per call. *)
Lemma run_updates_length (calls : list call) (self : engine) :
  exists rs self',
    run_updates calls self = (inr rs, self') /\
    (List.length (_scores self')
     <= List.length (_scores self) + List.length calls)%nat.
Proof.
  revert self. induction calls as [|c rest IH]; intro self.
  - exists [], self. simpl. split; [reflexivity|lia].
  - assert (Hone : exists r s1,
               apply c self = (inr r, s1) /\
               (List.length (_scores s1) <= S (List.length (_scores self)))%nat).
    { rewrite update_cases.
      assert (Hw : (List.length (_scores (written c self))
                    <= S (List.length (_scores self)))%nat).
      { unfold written. simpl. rewrite dict_set_length.
        destruct (dict_get (player_id c) (_scores self)); lia. }
      destruct (dict_get (player_id c) (_scores self)) as [old|];
        [destruct (PyFloat.gt (timestamp c) (ts old))|]; eauto. }
    destruct Hone as [r [s1 [Happ Hlen1]]].
    destruct (IH s1) as [rs [s2 [Hrun Hlen2]]].
    exists (r :: rs), s2. rewrite run_updates_cons, Happ, Hrun.
    split; [reflexivity|]. simpl. lia.
Qed.

(** X15. The ranking sent with an accepted UPDATE is taken after the
    write, whatever updates of other sessions run in between: while there
    is room in the top ten, it has a row for the updated player, with the
    score and name of the record then stored, which is the one written or
    one of a greater timestamp, and the one written when no other session
    came in between. *)
Theorem accepted_update_is_listed
    (others : list call) (k : pykey) (nm : json) (sc : Z) (t : float)
    (self : engine) :
  (forall old, dict_get k (_scores self) = Some old ->
               PyFloat.gt t (ts old) = true) ->
  Z.of_nat (List.length (_scores self)) + Z.of_nat (List.length others)
    < TOP_N ->
  exists top self' e r,
    update_then_top others k nm sc t self =
      (inr ({| status := accepted; current_score := sc |}, top), self') /\
    In e top /\ Entry.player_id e = k /\
    dict_get k (_scores self') = Some r /\
    Entry.score e = Engine.score r /\ Entry.name e = Engine.name r /\
    (r = {| Engine.score := sc; Engine.name := nm; ts := t |} \/
     PyFloat.gt (ts r) t = true) /\
    (others = [] ->
     r = {| Engine.score := sc; Engine.name := nm; ts := t |}).
Proof.
  intros Hnewer Hroom.
  pose (c := mkCall k nm sc t).
  assert (Hu : update k nm sc t self = (inr (accept_of c), written c self)).
  { exact (update_newer c self Hnewer). }
  assert (Hk : dict_get k (_scores (written c self)) = Some (stored c)).
  { apply dict_get_set_same. }
  assert (Hlen1 : (List.length (_scores (written c self))
                   <= S (List.length (_scores self)))%nat).
  { unfold written. simpl. rewrite dict_set_length.
    destruct (dict_get k (_scores self)); lia. }
  destruct (EngineLaws.run_updates_keeps_or_newer others (written c self) k
              (stored c) Hk) as [rs [s2 [r [Hrun [Hr Hord]]]]].
  destruct (run_updates_length others (written c self))
    as [rs' [s2' [Hrun' Hlen2]]].
  rewrite Hrun in Hrun'. injection Hrun' as _ <-.
  assert (Hall : Z.of_nat (List.length (_scores s2)) <= TOP_N) by lia.
  destruct (full_ranking_row s2 k r Hr) as [j Hj].
  exists (full_ranking s2), s2. do 2 eexists.
  split.
  { unfold update_then_top, bind. rewrite Hu, Hrun.
    rewrite (get_top_all s2 TOP_N Hall). reflexivity. }
  split; [exact Hj|]. split; [reflexivity|]. split; [exact Hr|].
  split; [reflexivity|]. split; [reflexivity|]. split; [exact Hord|].
  intros ->. simpl in Hrun. unfold ret in Hrun. injection Hrun as _ <-.
  rewrite Hk in Hr. now injection Hr as <-.
Qed.


End HandlerLaws.

(** ** More on the reading loop *)

Module SessionLaws.
Import Engine Handler HandlerFacts.
Import Notions.

Lemma string_app_nil_r (s : string) : (s ++ EmptyString)%string = s.
Proof. induction s as [|c s IH]; simpl; [reflexivity|now rewrite IH]. Qed.

Lemma string_app_assoc (s t u : string) :
  ((s ++ t) ++ u)%string = (s ++ (t ++ u))%string.
Proof. induction s as [|c s IH]; simpl; [reflexivity|now rewrite IH]. Qed.

Lemma string_app_length (s t : string) :
  String.length (s ++ t) = (String.length s + String.length t)%nat.
Proof. induction s as [|c s IH]; simpl; [reflexivity|now rewrite IH]. Qed.

Lemma string_app_nonempty (s t : string) :
  s <> EmptyString -> (s ++ t)%string <> EmptyString.
Proof. destruct s; [congruence|discriminate]. Qed.

(** The first newline of [s ++ t] is the first of [s], or else of [t]. *)
Lemma split_newline_app (s t : string) :
  split_newline (s ++ t) =
  match split_newline s with
  | Some (line, rest) => Some (line, (rest ++ t)%string)
  | None =>
      match split_newline t with
      | Some (line, rest) => Some ((s ++ line)%string, rest)
      | None => None
      end
  end.
Proof.
  induction s as [|c s IH]; simpl.
  - now destruct (split_newline t) as [[l r]|].
  - destruct (Ascii.eqb c newline); [reflexivity|].
    rewrite IH. destruct (split_newline s) as [[l r]|]; [reflexivity|].
    now destruct (split_newline t) as [[l r]|].
Qed.

Section WithRuntime.

Variable rt : runtime.
Variable w : world.

(** Serving a line does not look at the buffer. *)
Lemma serve_line_with_buf (line b : string) (ss : session) (self : engine) :
  serve_line rt w line (with_buf b ss) self =
  match serve_line rt w line ss self with
  | (inr ss', self') => (inr (with_buf b ss'), self')
  | (inl e, self') => (inl e, self')
  end.
Proof.
  unfold serve_line. simpl.
  destruct (String.eqb (str_strip rt line) EmptyString); [reflexivity|].
  unfold bind, ret.
  now destruct (_handle rt (clock_at w (handled ss)) (str_strip rt line) self)
    as [[e|resp] self'].
Qed.

(** One turn of the inner loop on a buffer with a newline. *)
Lemma drain_step (fuel : nat) (ss : session) (self : engine)
                 (line rest : string) :
  split_newline (buf ss) = Some (line, rest) ->
  exists ss0 self0,
    serve_line rt w line ss self = (inr ss0, self0) /\
    drain rt w (S fuel) ss self = drain rt w fuel (with_buf rest ss0) self0.
Proof.
  intro E. destruct (serve_line_returns rt w line ss self)
    as [ss0 [self0 [Hs _]]].
  exists ss0, self0. split; [exact Hs|].
  simpl. rewrite E. unfold bind.
  change {| buf := rest; outbox := outbox ss; handled := handled ss;
            is_open := is_open ss |} with (with_buf rest ss).
  now rewrite serve_line_with_buf, Hs.
Qed.

Lemma drain_no_newline (fuel : nat) (ss : session) (self : engine) :
  split_newline (buf ss) = None -> drain rt w fuel ss self = (inr ss, self).
Proof. intro E. destruct fuel; simpl; [reflexivity|now rewrite E]. Qed.

(** The loop only shortens the buffer. *)
Lemma drain_buf_le (fuel : nat) (ss ss' : session) (self self' : engine) :
  drain rt w fuel ss self = (inr ss', self') ->
  (String.length (buf ss') <= String.length (buf ss))%nat.
Proof.
  revert ss self. induction fuel as [|fuel IH]; intros ss self H.
  - simpl in H. injection H as <- _. lia.
  - destruct (split_newline (buf ss)) as [[line rest]|] eqn:E.
    + destruct (drain_step fuel ss self line rest E)
        as [ss0 [self0 [_ Hd]]].
      rewrite Hd in H. apply IH in H. simpl in H.
      apply split_newline_shorter in E. lia.
    + rewrite (drain_no_newline _ _ _ E) in H. injection H as <- _. lia.
Qed.

(** Above the length of the buffer the amount of fuel does not matter. *)
Lemma drain_fuel (f1 f2 : nat) (ss : session) (self : engine) :
  (String.length (buf ss) < f1)%nat ->
  (String.length (buf ss) < f2)%nat ->
  drain rt w f1 ss self = drain rt w f2 ss self.
Proof.
  revert f2 ss self. induction f1 as [|f1 IH]; intros f2 ss self H1 H2;
    [lia|].
  destruct f2 as [|f2]; [lia|].
  destruct (split_newline (buf ss)) as [[line rest]|] eqn:E.
  - destruct (drain_step f1 ss self line rest E) as [ss0 [self0 [Hs Hd]]].
    destruct (drain_step f2 ss self line rest E) as [ss0' [self0' [Hs' Hd']]].
    rewrite Hs in Hs'. injection Hs' as <- <-.
    rewrite Hd, Hd'. apply split_newline_shorter in E.
    apply IH; simpl; lia.
  - now rewrite !drain_no_newline.
Qed.

(** Draining [s ++ t] is draining [s] and then what is left with [t]. *)
Lemma drain_app (f : nat) (s t : string) (ss : session) (self : engine) :
  (String.length (s ++ t) < f)%nat ->
  drain rt w f (with_buf (s ++ t) ss) self =
  match drain rt w f (with_buf s ss) self with
  | (inr ss1, self1) =>
      drain rt w f (with_buf (buf ss1 ++ t) ss1) self1
  | (inl e, self1) => (inl e, self1)
  end.
Proof.
  revert s ss self. induction f as [|f IH]; intros s ss self Hlen; [lia|].
  destruct (split_newline s) as [[line rest]|] eqn:E.
  - assert (E' : split_newline (buf (with_buf (s ++ t) ss))
                 = Some (line, (rest ++ t)%string)).
    { simpl. now rewrite split_newline_app, E. }
    destruct (drain_step f (with_buf (s ++ t) ss) self line _ E')
      as [ss0 [self0 [Hs Hd]]].
    destruct (drain_step f (with_buf s ss) self line rest E)
      as [ss0' [self0' [Hs' Hd']]].
    rewrite serve_line_with_buf in Hs, Hs'.
    destruct (serve_line rt w line ss self) as [[e|ss1] self1];
      [discriminate|].
    injection Hs as <- <-. injection Hs' as <- <-.
    rewrite Hd, Hd'.
    change (with_buf (rest ++ t) (with_buf (s ++ t) ss1))
      with (with_buf (rest ++ t) ss1).
    change (with_buf rest (with_buf s ss1)) with (with_buf rest ss1).
    pose proof (split_newline_shorter _ _ _ E) as Hshort.
    rewrite string_app_length in Hlen.
    rewrite IH by (rewrite string_app_length; lia).
    destruct (drain rt w f (with_buf rest ss1) self1) as [[e|ss2] self2] eqn:D;
      [reflexivity|].
    apply drain_buf_le in D. simpl in D.
    apply drain_fuel; simpl; rewrite string_app_length; lia.
  - rewrite (drain_no_newline (S f) (with_buf s ss) self) by exact E.
    reflexivity.
Qed.

(** Two chunks in a row are read as their concatenation. *)
Lemma reading_two (a b : string) (events : list recv_result)
                  (ss : session) (self : engine) :
  a <> EmptyString -> b <> EmptyString ->
  reading rt w (Received a :: Received b :: events) ss self =
  reading rt w (Received (a ++ b) :: events) ss self.
Proof.
  intros Ha Hb. cbn [reading].
  destruct (String.eqb_spec a EmptyString) as [|_]; [contradiction|].
  destruct (String.eqb_spec (a ++ b) EmptyString) as [E|_];
    [now apply string_app_nonempty in E|].
  unfold bind.
  change {| buf := (buf ss ++ a)%string; outbox := outbox ss;
            handled := handled ss; is_open := is_open ss |}
    with (with_buf (buf ss ++ a) ss).
  change {| buf := (buf ss ++ (a ++ b))%string; outbox := outbox ss;
            handled := handled ss; is_open := is_open ss |}
    with (with_buf (buf ss ++ (a ++ b)) ss).
  rewrite <- string_app_assoc.
  set (F := S (String.length ((buf ss ++ a) ++ b))).
  rewrite (drain_fuel (S (String.length (buf ss ++ a))) F)
    by (subst F; simpl; rewrite ?string_app_length; lia).
  rewrite (drain_app F (buf ss ++ a) b) by (subst F; lia).
  destruct (drain rt w F (with_buf (buf ss ++ a) ss) self)
    as [[e|ss1] self1] eqn:D; [reflexivity|].
  cbn [reading].
  destruct (String.eqb_spec b EmptyString) as [|_]; [contradiction|].
  unfold bind.
  change {| buf := (buf ss1 ++ b)%string; outbox := outbox ss1;
            handled := handled ss1; is_open := is_open ss1 |}
    with (with_buf (buf ss1 ++ b) ss1).
  apply drain_buf_le in D. simpl in D.
  rewrite (drain_fuel (S (String.length (buf ss1 ++ b))) F)
    by (subst F; simpl; rewrite ?string_app_length in *; lia).
  reflexivity.
Qed.

(** Any text chunks are read as their concatenation. *)
Lemma reading_joined (c : string) (chunks : list string)
                     (later : list recv_result) (ss : session)
                     (self : engine) :
  Forall (fun x => x <> EmptyString) (c :: chunks) ->
  reading rt w (map Received (c :: chunks) ++ later) ss self =
  reading rt w (Received (join (c :: chunks)) :: later) ss self.
Proof.
  revert c. induction chunks as [|c2 chunks IH]; intros c H.
  - simpl. now rewrite string_app_nil_r.
  - inversion H as [|? ? Hc H2]; subst.
    inversion H2 as [|? ? Hc2 H3]; subst.
    change (map Received (c :: c2 :: chunks) ++ later)%list
      with (Received c :: Received c2 :: (map Received chunks ++ later))%list.
    rewrite reading_two by assumption.
    change (Received (c ++ c2) :: (map Received chunks ++ later))%list
      with (map Received ((c ++ c2)%string :: chunks) ++ later)%list.
    rewrite IH.
    + simpl. now rewrite string_app_assoc.
    + constructor; [now apply string_app_nonempty|exact H3].
Qed.

(** X16. Where the text received is cut does not matter: consecutive
    chunks that [recv] and [decode] gave as text are read as their
    concatenation in one chunk, with the same responses, engine, buffer
    and open state, whatever [later] the socket gives afterwards, a [recv]
    or [decode] that raises included. *)
Theorem chunking_does_not_matter
    (c : string) (chunks : list string) (later : list recv_result)
    (self : engine) :
  Forall (fun x => x <> EmptyString) (c :: chunks) ->
  run rt w (map Received (c :: chunks) ++ later) self =
  run rt w (Received (join (c :: chunks)) :: later) self.
Proof.
  intro H. unfold run, try_except. now rewrite reading_joined.
Qed.

Lemma lines_from_split (cur s : string) :
  lines_from cur s =
  match split_newline s with
  | Some (line, rest) => (cur ++ line)%string :: lines_from EmptyString rest
  | None => []
  end.
Proof.
  revert cur. induction s as [|c s IH]; intro cur; simpl; [reflexivity|].
  destruct (Ascii.eqb c newline).
  - now rewrite string_app_nil_r.
  - rewrite IH. destruct (split_newline s) as [[l r]|]; [|reflexivity].
    now rewrite string_app_assoc.
Qed.

Lemma tail_from_split (cur s : string) :
  tail_from cur s =
  match split_newline s with
  | Some (line, rest) => tail_from EmptyString rest
  | None => (cur ++ s)%string
  end.
Proof.
  revert cur. induction s as [|c s IH]; intro cur; simpl.
  - now rewrite string_app_nil_r.
  - destruct (Ascii.eqb c newline); [reflexivity|].
    rewrite IH. destruct (split_newline s) as [[l r]|]; [reflexivity|].
    now rewrite string_app_assoc.
Qed.

(** What serving one line adds to the session. *)
Lemma serve_line_counts (line : string) (ss ss0 : session)
                        (self self0 : engine) :
  serve_line rt w line ss self = (inr ss0, self0) ->
  let served :=
    if String.eqb (str_strip rt line) EmptyString then O else 1%nat in
  handled ss0 = (handled ss + served)%nat /\
  ((forall n, send_fails w n = false) ->
   List.length (outbox ss0) = (List.length (outbox ss) + served)%nat).
Proof.
  unfold serve_line.
  destruct (String.eqb (str_strip rt line) EmptyString).
  - intros [= <- _]. simpl. split; [lia|]. intros _. lia.
  - unfold bind.
    destruct (handle_returns rt (clock_at w (handled ss))
                (str_strip rt line) self) as [resp [s1 [-> _]]].
    intros [= <- _]. simpl. split; [lia|]. intro Hok.
    rewrite Hok, length_app. simpl. lia.
Qed.

(** What the inner loop leaves: the text after the last newline in the
    buffer, and one more handled frame per served line. *)
Lemma drain_summary (fuel : nat) (ss : session) (self : engine) :
  (String.length (buf ss) < fuel)%nat ->
  exists ss' self',
    drain rt w fuel ss self = (inr ss', self') /\
    buf ss' = unterminated (buf ss) /\
    handled ss' = (handled ss + List.length (frames rt (buf ss)))%nat /\
    ((forall n, send_fails w n = false) ->
     List.length (outbox ss') =
       (List.length (outbox ss) + List.length (frames rt (buf ss)))%nat) /\
    is_open ss' = is_open ss.
Proof.
  revert ss self. induction fuel as [|fuel IH]; intros ss self Hlen; [lia|].
  unfold frames, complete_lines, unterminated.
  rewrite lines_from_split, tail_from_split.
  destruct (split_newline (buf ss)) as [[line rest]|] eqn:E.
  - destruct (drain_step fuel ss self line rest E) as [ss0 [self0 [Hs Hd]]].
    destruct (serve_line_counts line ss ss0 self self0 Hs) as [Hh Ho].
    pose proof (serve_line_returns rt w line ss self) as [ss0' [s0' [Hs' Hop]]].
    rewrite Hs in Hs'. injection Hs' as <- <-.
    apply split_newline_shorter in E.
    destruct (IH (with_buf rest ss0) self0) as [ss' [self' [Hd' [Hb [Hh' [Ho' Hop']]]]]];
      [simpl; lia|].
    exists ss', self'. rewrite Hd. split; [exact Hd'|].
    simpl in Hb, Hh', Ho', Hop'. split; [exact Hb|].
    unfold frames, complete_lines in Hh', Ho'. simpl.
    destruct (String.eqb (str_strip rt line) EmptyString); simpl in *.
    + split; [lia|]. split; [|congruence].
      intro Hok. specialize (Ho Hok). specialize (Ho' Hok). lia.
    + split; [lia|]. split; [|congruence].
      intro Hok. specialize (Ho Hok). specialize (Ho' Hok). lia.
  - exists ss, self. rewrite (drain_no_newline _ _ _ E). simpl.
    repeat split; lia.
Qed.

(** Reading chunks from an empty buffer. *)
Lemma run_summary (c : string) (chunks : list string) (self : engine) :
  Forall (fun x => x <> EmptyString) (c :: chunks) ->
  exists ss' self',
    run rt w (map Received (c :: chunks)) self = (inr ss', self') /\
    buf ss' = unterminated (join (c :: chunks)) /\
    handled ss' = List.length (frames rt (join (c :: chunks))) /\
    ((forall n, send_fails w n = false) ->
     List.length (outbox ss') = List.length (frames rt (join (c :: chunks)))) /\
    is_open ss' = true.
Proof.
  intro H. unfold run, try_except.
  rewrite <- (app_nil_r (map Received (c :: chunks))).
  rewrite reading_joined by exact H.
  cbn [reading].
  destruct (String.eqb_spec (join (c :: chunks)) EmptyString) as [E|_].
  { inversion H; subst. simpl in E. now apply string_app_nonempty in E. }
  unfold bind. cbn [buf outbox handled is_open append].
  set (ss0 := {| buf := join (c :: chunks); outbox := []; handled := O;
                 is_open := true |}).
  destruct (drain_summary (S (String.length (join (c :: chunks)))) ss0 self)
    as [ss' [self' [Hd [Hb [Hh [Ho Hop]]]]]]; [simpl; lia|].
  rewrite Hd. exists ss', self'. simpl in *. repeat split; auto.
Qed.

(** X17. Before the loop waits for more bytes it has consumed every
    complete line: whatever the chunks, the buffer then holds exactly the
    text after the last newline received, and the connection is open. *)
Theorem buffer_is_unterminated_tail
    (c : string) (chunks : list string) (self : engine) :
  Forall (fun x => x <> EmptyString) (c :: chunks) ->
  exists ss' self',
    run rt w (map Received (c :: chunks)) self = (inr ss', self') /\
    buf ss' = unterminated (join (c :: chunks)) /\
    split_newline (buf ss') = None /\
    is_open ss' = true.
Proof.
  intro H.
  destruct (run_summary c chunks self H) as [ss' [self' [Hr [Hb [_ [_ Ho]]]]]].
  exists ss', self'. repeat split; auto.
  rewrite Hb. unfold unterminated.
  generalize (join (c :: chunks)). intro s.
  assert (G : forall n s, (String.length s < n)%nat ->
                        split_newline (tail_from EmptyString s) = None).
  { clear. induction n as [|n IH]; intros s Hn; [lia|].
    rewrite tail_from_split.
    destruct (split_newline s) as [[l r]|] eqn:E.
    - apply IH. apply split_newline_shorter in E. lia.
    - exact E. }
  exact (G (S (String.length s)) s (Nat.lt_succ_diag_r _)).
Qed.

(** X18. One response per request: the number of frames handled is the
    number of newline-terminated lines received that are not blank, and
    when no write fails that is the number of responses written. *)
Theorem one_response_per_frame
    (c : string) (chunks : list string) (self : engine) :
  Forall (fun x => x <> EmptyString) (c :: chunks) ->
  exists ss' self',
    run rt w (map Received (c :: chunks)) self = (inr ss', self') /\
    handled ss' = List.length (frames rt (join (c :: chunks))) /\
    ((forall n, send_fails w n = false) ->
     List.length (outbox ss') = List.length (frames rt (join (c :: chunks)))).
Proof.
  intro H.
  destruct (run_summary c chunks self H) as [ss' [self' [Hr [_ [Hh [Ho _]]]]]].
  now exists ss', self'.
Qed.

(** The loop returns, and the connection is open afterwards exactly when
    it was open and every [recv] gave text. *)
Lemma reading_status (events : list recv_result) (ss : session)
                     (self : engine) :
  exists ss' self',
    reading rt w events ss self = (inr ss', self') /\
    (is_open ss' = true <-> is_open ss = true /\ Forall has_text events).
Proof.
  revert ss self. induction events as [|ev events IH]; intros ss self.
  - exists ss, self. split; [reflexivity|]. split; [now split|tauto].
  - destruct ev as [chunk|e]; cbn [reading].
    + destruct (String.eqb_spec chunk EmptyString) as [->|Hne].
      * exists (close ss), self. split; [reflexivity|]. simpl.
        split; [discriminate|]. intros [_ H]. inversion H as [|? ? Hev _].
        now contradiction Hev.
      * unfold bind.
        destruct (drain_returns rt w (S (String.length (buf ss ++ chunk)))
                    {| buf := (buf ss ++ chunk)%string; outbox := outbox ss;
                       handled := handled ss; is_open := is_open ss |} self)
          as [ss1 [s1 [-> Ho1]]].
        destruct (IH ss1 s1) as [ss2 [s2 [-> Hiff]]].
        exists ss2, s2. split; [reflexivity|]. rewrite Hiff, Ho1. simpl.
        split.
        -- intros [Ho Hall]. split; [exact Ho|]. now constructor.
        -- intros [Ho Hall]. inversion Hall; subst. tauto.
    + exists (close ss), self. split; [reflexivity|]. simpl.
      split; [discriminate|]. intros [_ H]. inversion H as [|? ? Hev _].
      contradiction.
Qed.

(** X19. [run] always returns, and the connection is still open afterwards
    exactly when no [recv] came back empty or raised; no frame, however
    malformed, closes it. *)
Theorem open_until_recv_ends (events : list recv_result) (self : engine) :
  exists ss' self',
    run rt w events self = (inr ss', self') /\
    (is_open ss' = true <-> Forall has_text events).
Proof.
  unfold run, try_except.
  destruct (reading_status events
              {| buf := EmptyString; outbox := []; handled := O;
                 is_open := true |} self) as [ss' [self' [-> Hiff]]].
  exists ss', self'. split; [reflexivity|]. rewrite Hiff. simpl. tauto.
Qed.

Lemma reading_after_stop
    (before later : list recv_result) (stop : recv_result) (ss : session)
    (self : engine) :
  ~ has_text stop ->
  reading rt w (before ++ stop :: later) ss self =
  reading rt w (before ++ [stop]) ss self.
Proof.
  intro Hstop. revert self ss.
  induction before as [|ev before IH]; intros self ss.
  - destruct stop as [chunk|e]; cbn [app reading]; [|reflexivity].
    destruct (String.eqb_spec chunk EmptyString) as [_|Hne]; [reflexivity|].
    now contradiction Hstop.
  - destruct ev as [chunk|e]; cbn [app reading]; [|reflexivity].
    destruct (String.eqb chunk EmptyString); [reflexivity|].
    unfold bind.
    destruct (drain rt w _ _ self) as [[e|ss1] s1]; [reflexivity|].
    apply IH.
Qed.

(** X20. Once [recv] comes back empty or raises, nothing more is read or
    served: the events after it change neither the session nor the
    engine. *)
Theorem nothing_after_close
    (before later : list recv_result) (stop : recv_result) (self : engine) :
  ~ has_text stop ->
  run rt w (before ++ stop :: later) self = run rt w (before ++ [stop]) self.
Proof.
  intro Hstop. unfold run, try_except.
  now rewrite reading_after_stop.
Qed.

End WithRuntime.

Section TwoWorlds.

Variable rt : runtime.
Variables w1 w2 : world.
Hypothesis same_clocks : forall n, clock_at w1 n = clock_at w2 n.

Lemma serve_line_same (line : string) (a b : session) (self : engine) :
  same_progress a b ->
  exists a' b' self',
    serve_line rt w1 line a self = (inr a', self') /\
    serve_line rt w2 line b self = (inr b', self') /\
    same_progress a' b'.
Proof.
  intros [Hb [Hh Ho]]. unfold serve_line.
  destruct (String.eqb (str_strip rt line) EmptyString).
  - exists a, b, self. repeat split; auto.
  - unfold bind. rewrite <- Hh, <- same_clocks.
    destruct (handle_returns rt (clock_at w1 (handled a))
                (str_strip rt line) self) as [resp [s1 [-> _]]].
    exists (_send w1 resp a), (_send w2 resp b), s1.
    repeat split; simpl; auto.
Qed.

Lemma drain_same (fuel : nat) (a b : session) (self : engine) :
  same_progress a b ->
  exists a' b' self',
    drain rt w1 fuel a self = (inr a', self') /\
    drain rt w2 fuel b self = (inr b', self') /\
    same_progress a' b'.
Proof.
  revert a b self. induction fuel as [|fuel IH]; intros a b self Hsame.
  - now exists a, b, self.
  - simpl. destruct Hsame as [Hb [Hh Ho]]. rewrite <- Hb.
    destruct (split_newline (buf a)) as [[line rest]|];
      [|exists a, b, self; repeat split; auto].
    unfold bind.
    destruct (serve_line_same line
                {| buf := rest; outbox := outbox a; handled := handled a;
                   is_open := is_open a |}
                {| buf := rest; outbox := outbox b; handled := handled b;
                   is_open := is_open b |} self)
      as [a1 [b1 [s1 [-> [-> H1]]]]]; [repeat split; auto|].
    apply IH, H1.
Qed.

Lemma reading_same (events : list recv_result) (a b : session)
                   (self : engine) :
  same_progress a b ->
  exists a' b' self',
    reading rt w1 events a self = (inr a', self') /\
    reading rt w2 events b self = (inr b', self') /\
    same_progress a' b'.
Proof.
  revert a b self. induction events as [|ev events IH]; intros a b self Hsame.
  - now exists a, b, self.
  - assert (Hclose : same_progress (close a) (close b)).
    { destruct Hsame as [Hb [Hh Ho]]. repeat split; auto. }
    destruct ev as [chunk|e]; cbn [reading];
      [|exists (close a), (close b), self; auto].
    destruct (String.eqb chunk EmptyString);
      [exists (close a), (close b), self; auto|].
    unfold bind. destruct Hsame as [Hb [Hh Ho]]. rewrite <- Hb.
    destruct (drain_same (S (String.length (buf a ++ chunk)))
                {| buf := (buf a ++ chunk)%string; outbox := outbox a;
                   handled := handled a; is_open := is_open a |}
                {| buf := (buf a ++ chunk)%string; outbox := outbox b;
                   handled := handled b; is_open := is_open b |} self)
      as [a1 [b1 [s1 [-> [-> H1]]]]]; [repeat split; auto|].
    apply IH, H1.
Qed.

(** X21. A failed write is swallowed and changes nothing else: with the
    same clock readings, a connection whose writes fail leaves the same
    engine, buffer, frame count and open state as one whose writes
    succeed. *)
Theorem write_failures_are_swallowed
    (events : list recv_result) (self : engine) :
  exists a b self',
    run rt w1 events self = (inr a, self') /\
    run rt w2 events self = (inr b, self') /\
    same_progress a b.
Proof.
  unfold run, try_except.
  destruct (reading_same events
              {| buf := EmptyString; outbox := []; handled := O;
                 is_open := true |}
              {| buf := EmptyString; outbox := []; handled := O;
                 is_open := true |} self) as [a [b [s [-> [-> H]]]]].
  - repeat split.
  - now exists a, b, s.
Qed.

End TwoWorlds.

End SessionLaws.

(** ** The callers of the protocol *)

Module ClientLaws.
Import Handler Client SessionLaws.
Import Notions.

Section WithRuntime.

Variable rt : runtime.

(** With text chunks that hold a newline, the client decodes the first
    line and keeps the rest. *)
Lemma send_recv_line
    (texts : list string) (later : list recv_result)
    (buf line rest : string) :
  Forall (fun x => x <> EmptyString) texts ->
  split_newline (buf ++ join texts) = Some (line, rest) ->
  exists buf' unread,
    _send_recv rt (map Received texts ++ later) buf
      = decoded_line rt line buf' (map Received unread ++ later) /\
    (buf' ++ join unread)%string = rest.
Proof.
  revert buf. induction texts as [|c more IH]; intros buf Hne Hsplit.
  - simpl in Hsplit. rewrite string_app_nil_r in Hsplit.
    exists rest, []. split; [|apply string_app_nil_r].
    cbn [map app]. destruct later as [|ev later]; cbn [_send_recv];
      now rewrite Hsplit.
  - rewrite split_newline_app in Hsplit. cbn [map app _send_recv].
    destruct (split_newline buf) as [[l r]|] eqn:E.
    + injection Hsplit as <- <-. exists r, (c :: more). now split.
    + inversion Hne as [|? ? Hc Hmore]; subst.
      destruct (String.eqb_spec c EmptyString) as [|_]; [contradiction|].
      apply IH; [exact Hmore|].
      simpl in Hsplit. rewrite string_app_assoc, split_newline_app, E.
      exact Hsplit.
Qed.

(** With text chunks that hold no newline, the client reads them all and
    ends as the next [recv] does. *)
Lemma send_recv_no_line
    (texts : list string) (later : list recv_result) (stop : recv_result)
    (buf : string) :
  Forall (fun x => x <> EmptyString) texts ->
  split_newline (buf ++ join texts) = None ->
  ~ has_text stop ->
  _send_recv rt (map Received texts ++ stop :: later) buf
  = match stop with
    | Received _ => ConnectionError (buf ++ join texts)
    | RecvRaises e => RecvRaised e (buf ++ join texts)
    end.
Proof.
  revert buf. induction texts as [|c more IH]; intros buf Hne Hsplit Hstop.
  - simpl in Hsplit. cbn [map app join fold_right _send_recv].
    rewrite string_app_nil_r in *. rewrite Hsplit.
    destruct stop as [chunk|e]; [|reflexivity].
    destruct (String.eqb_spec chunk EmptyString) as [_|Hc]; [reflexivity|].
    now contradiction Hstop.
  - inversion Hne as [|? ? Hc Hmore]; subst.
    simpl in Hsplit. rewrite <- string_app_assoc in Hsplit.
    cbn [map app _send_recv].
    assert (E : split_newline buf = None).
    { rewrite string_app_assoc, split_newline_app in Hsplit.
      now destruct (split_newline buf) as [[l r]|]. }
    rewrite E.
    destruct (String.eqb_spec c EmptyString) as [|_]; [contradiction|].
    rewrite (IH (buf ++ c)%string Hmore Hsplit Hstop).
    simpl. now rewrite string_app_assoc.
Qed.

(** X22. The client reads the text it is given in order and whole: when
    the chunks to come are text and, with the buffer, hold a newline,
    [_send_recv] decodes exactly the text before the first newline, and
    what it leaves in the buffer followed by the chunks it has not read is
    exactly the text after that newline.  A [recv] that raises before a
    newline has come, as does one whose bytes do not decode, ends the call
    with that exception and the text read before it in the buffer: its
    chunk is lost. *)
Theorem client_takes_first_line
    (texts : list string) (later : list recv_result) (buf : string) :
  Forall (fun x => x <> EmptyString) texts ->
  (forall line rest,
     split_newline (buf ++ join texts) = Some (line, rest) ->
     exists buf' unread,
       _send_recv rt (map Received texts ++ later) buf
         = decoded_line rt line buf' (map Received unread ++ later) /\
       (buf' ++ join unread)%string = rest) /\
  (forall e,
     split_newline (buf ++ join texts) = None ->
     _send_recv rt (map Received texts ++ RecvRaises e :: later) buf
       = RecvRaised e (buf ++ join texts)).
Proof.
  intro Hne. split.
  - intros line rest Hsplit. now apply send_recv_line.
  - intros e Hsplit.
    apply (send_recv_no_line texts later (RecvRaises e) buf Hne Hsplit).
    simpl. tauto.
Qed.

(** X23. When the server closes the connection before a complete line has
    arrived, the client's [_send_recv] raises [ConnectionError], with all
    the text read so far in its buffer. *)
Theorem client_raises_when_closed
    (texts : list string) (later : list recv_result) (buf : string) :
  Forall (fun x => x <> EmptyString) texts ->
  split_newline (buf ++ join texts) = None ->
  _send_recv rt (map Received texts ++ Received EmptyString :: later) buf
  = ConnectionError (buf ++ join texts).
Proof.
  intros Hne Hsplit.
  apply (send_recv_no_line texts later (Received EmptyString) buf Hne Hsplit).
  simpl. tauto.
Qed.

(** X24. On the same closed connection the [send_recv] of the benchmark
    and of the demo never returns and never raises: [recv] gives the empty
    string each time and the loop goes on testing its condition. *)
Theorem bench_spins_when_closed
    (sock : nat -> string) (i : nat) (buf : string) (fuel : nat) :
  split_newline buf = None ->
  (forall j, (i <= j)%nat -> sock j = EmptyString) ->
  send_recv rt fuel sock i buf = None.
Proof.
  intros Hsplit Hclosed. revert i Hclosed.
  induction fuel as [|fuel IH]; intros i Hclosed; [reflexivity|].
  simpl. rewrite Hsplit, (Hclosed i (Nat.le_refl i)), string_app_nil_r.
  apply IH. intros j Hj. apply Hclosed. lia.
Qed.

(** X25. When a newline arrives within the first [k] chunks, [send_recv]
    returns after at most [k] calls of [recv] with the decoded text before
    the first newline. *)
Theorem bench_takes_first_line
    (k : nat) (sock : nat -> string) (i : nat) (buf line rest : string)
    (fuel : nat) :
  split_newline (buf ++ join (map sock (seq i k))) = Some (line, rest) ->
  (k < fuel)%nat ->
  send_recv rt fuel sock i buf =
  Some match json_loads rt line with
       | Some v => BenchReturned v
       | None => BenchDecodeRaises
       end.
Proof.
  revert i buf fuel. induction k as [|k IH]; intros i buf fuel Hsplit Hk;
    (destruct fuel as [|fuel]; [lia|]); simpl.
  - simpl in Hsplit. rewrite string_app_nil_r in Hsplit.
    now rewrite Hsplit.
  - rewrite split_newline_app in Hsplit.
    destruct (split_newline buf) as [[l r]|] eqn:E.
    + now injection Hsplit as <- _.
    + apply IH; [|lia].
      simpl in Hsplit. rewrite string_app_assoc, split_newline_app, E.
      exact Hsplit.
Qed.

End WithRuntime.

Lemma play_counts (rs : list round) (latencies : list float) (errors : nat) :
  let (lat', err') := play rs latencies errors in
  (List.length lat' + err' =
   List.length latencies + errors + List.length rs + not_ok rs)%nat /\
  (List.length lat' <= List.length latencies + List.length rs)%nat /\
  (err' <= errors + List.length rs)%nat.
Proof.
  revert latencies errors. induction rs as [|r rs IH]; intros lat err.
  - simpl. unfold not_ok. simpl. lia.
  - destruct r as [t|t|]; cbn [play].
    + specialize (IH (lat ++ [t]) err).
      destruct (play rs (lat ++ [t]) err) as [l' e'].
      rewrite length_app in IH. unfold not_ok in *. simpl in *. lia.
    + specialize (IH (lat ++ [t]) (S err)).
      destruct (play rs (lat ++ [t]) (S err)) as [l' e'].
      rewrite length_app in IH. unfold not_ok in *. simpl in *. lia.
    + specialize (IH lat (S err)).
      destruct (play rs lat (S err)) as [l' e'].
      unfold not_ok in *. simpl in *. lia.
Qed.

(** X26. The benchmark's two counts overlap: a response whose status is
    not ok is recorded as a latency, so counted as successful, and counted
    as an error as well.  When every worker connects and closes without
    exception, Successful plus Errors is the number of rounds plus the
    number of responses without status ok. *)
Theorem benchmark_counts_overlap (runs : list worker_run) :
  Forall (fun r => connects r = true /\ closes r = true) runs ->
  let (total_ok, total_err) := totals runs in
  (total_ok + total_err =
   fold_right Nat.add O (map (fun r => List.length (rounds r)) runs)
   + fold_right Nat.add O (map (fun r => not_ok (rounds r)) runs))%nat.
Proof.
  unfold totals. induction runs as [|r runs IH]; intro H; [reflexivity|].
  inversion H as [|? ? [Hc Hx] Hrest]; subst. specialize (IH Hrest).
  cbn [map List.concat fold_right]. rewrite length_app.
  unfold worker at 1 3. rewrite Hc, Hx.
  pose proof (play_counts (rounds r) [] O) as Hp.
  destruct (play (rounds r) [] O) as [lat err]. simpl in Hp. simpl fst.
  simpl snd. lia.
Qed.

End ClientLaws.

(** ** The further properties on the scenarios *)

Module MoreChecks.
Import Engine Handler History Ranking Scenario Scenario2 Client.
Import Notions.
Import RankingLaws SessionLaws ClientLaws HandlerLaws.
#[local] Open Scope string_scope.

Lemma timestamps_never_go_back_witness :
  exists rs self' new,
    run_updates two_calls tie_engine = (inr rs, self') /\
    dict_get (KStr "p1") (_scores self') = Some new /\
    (new = ann_20 \/ PyFloat.gt (ts new) (ts ann_20) = true).
Proof.
  apply (EngineLaws.timestamps_never_go_back two_calls tie_engine (KStr "p1")
           ann_20).
  reflexivity.
Defined.

Lemma nan_update_rejected_witness :
  update (KStr "p1") (JStr "Ann") 5 nan tie_engine =
  (inr {| status := rejected; current_score := Engine.score ann_20 |},
   tie_engine).
Proof.
  apply (EngineLaws.nan_update_rejected (KStr "p1") (JStr "Ann") 5 nan
           tie_engine ann_20); reflexivity.
Defined.

Lemma nan_record_is_final_witness :
  exists rs self',
    run_updates late_calls nan_engine = (inr rs, self') /\
    dict_get (KStr "p1") (_scores self') = Some nan_record.
Proof.
  apply (EngineLaws.nan_record_is_final late_calls nan_engine (KStr "p1")
           nan_record); reflexivity.
Defined.

Lemma get_top_prefix_witness :
  exists top_n top_m,
    get_top 1 tie_engine = (inr top_n, tie_engine) /\
    get_top 2 tie_engine = (inr top_m, tie_engine) /\
    top_n = firstn (Z.to_nat 1) top_m.
Proof.
  apply (RankingLaws.get_top_prefix tie_engine 1 2). lia.
Defined.

Lemma get_top_negative_witness :
  exists top all,
    get_top (-1) tie_engine = (inr top, tie_engine) /\
    get_top (Z.of_nat (List.length (_scores tie_engine))) tie_engine
      = (inr all, tie_engine) /\
    top = firstn (List.length all - Z.to_nat (- (-1))) all /\
    Z.of_nat (List.length top) =
      Z.max 0 (Z.of_nat (List.length (_scores tie_engine)) + (-1)).
Proof.
  apply (RankingLaws.get_top_negative tie_engine (-1)). lia.
Defined.

Lemma ties_in_dictionary_order_witness :
  exists top,
    get_top 2 tie_engine = (inr top, tie_engine) /\
    map Entry.player_id (with_score 20 top) =
    map fst (filter (fun kv => (Engine.score (snd kv) =? 20)%Z)
                    (_scores tie_engine)).
Proof.
  apply (RankingLaws.ties_in_dictionary_order tie_engine 2 20).
  simpl. lia.
Defined.

Lemma rows_are_stored_players_witness :
  exists top,
    get_top 2 tie_engine = (inr top, tie_engine) /\
    forall e, In e top ->
      exists r,
        dict_get (Entry.player_id e) (_scores tie_engine) = Some r /\
        Engine.score r = Entry.score e /\ Engine.name r = Entry.name e.
Proof.
  apply (RankingLaws.rows_are_stored_players tie_engine 2).
  simpl. repeat constructor; simpl; intuition discriminate.
Defined.

Lemma full_ranking_has_everyone_witness :
  exists top e,
    get_top 2 tie_engine = (inr top, tie_engine) /\
    In e top /\
    Entry.player_id e = KStr "p2" /\ Entry.score e = Engine.score bob_20 /\
    Entry.name e = Engine.name bob_20.
Proof.
  apply (RankingLaws.full_ranking_has_everyone tie_engine 2 (KStr "p2")
           bob_20).
  - simpl. lia.
  - reflexivity.
Defined.

Lemma only_update_writes_witness :
  snd (_handle ascii_runtime clock_5 frame_foo (init 0)) = init 0.
Proof.
  apply (HandlerLaws.only_update_writes ascii_runtime clock_5 frame_foo
           (init 0)).
  intros msg H. vm_compute in H. injection H as <-. vm_compute.
  discriminate.
Defined.

Lemma stale_request :
  update_request wide_runtime clock_5 msg_stale (KStr "p1")
    (JStr "p1") 5 0.5.
Proof.
  split.
  - exists (JStr "p1"). repeat split.
  - exists (JInt 5). repeat split.
  - reflexivity.
Defined.

Lemma stale_update_reply_witness :
  exists top,
    _handle wide_runtime clock_5 frame_stale tie_engine =
      (inr (Ok (latency clock_5)
              (UpdateData {| status := rejected;
                             current_score := Engine.score ann_20 |} top)),
       tie_engine).
Proof.
  apply (HandlerLaws.stale_update_reply wide_runtime clock_5 frame_stale
           tie_engine msg_stale (KStr "p1") (JStr "p1") 5 0.5 ann_20).
  - reflexivity.
  - reflexivity.
  - exact stale_request.
  - reflexivity.
  - reflexivity.
Defined.

Lemma update_defaults_witness :
  exists top,
    _handle wide_runtime clock_5 frame_plain tie_engine =
      (inr (Ok (latency clock_5)
              (UpdateData {| status := accepted; current_score := 5 |}
                          top)),
       {| _scores := (_scores tie_engine ++
                      [(KStr "p3", {| Engine.score := 5;
                                      Engine.name := JStr "p3";
                                      ts := time_time clock_5 |})])%list;
          _update_count := _update_count tie_engine + 1;
          _start_time := _start_time tie_engine |}).
Proof.
  apply (HandlerLaws.update_defaults wide_runtime clock_5 frame_plain
           tie_engine msg_plain (JStr "p3") (KStr "p3") (JInt 5) 5);
    reflexivity.
Defined.

Lemma accepted_update_is_listed_witness :
  exists top self' e r,
    update_then_top late_calls (KStr "p1") (JStr "Ann") 25 3 tie_engine =
      (inr ({| status := accepted; current_score := 25 |}, top), self') /\
    In e top /\ Entry.player_id e = KStr "p1" /\
    dict_get (KStr "p1") (_scores self') = Some r /\
    Entry.score e = Engine.score r /\ Entry.name e = Engine.name r /\
    (r = {| Engine.score := 25; Engine.name := JStr "Ann"; ts := 3 |} \/
     PyFloat.gt (ts r) 3 = true) /\
    (late_calls = [] ->
     r = {| Engine.score := 25; Engine.name := JStr "Ann"; ts := 3 |}).
Proof.
  apply (HandlerLaws.accepted_update_is_listed late_calls (KStr "p1")
           (JStr "Ann") 25 3 tie_engine).
  - intros old [= <-]. reflexivity.
  - simpl. reflexivity.
Defined.

Lemma chunks_have_text :
  Forall (fun x => x <> EmptyString) (first_chunk :: other_chunks).
Proof.
  repeat (constructor; [vm_compute; discriminate|]). constructor.
Defined.

Lemma chunking_does_not_matter_witness :
  run ascii_runtime quiet_world
    (map Received (first_chunk :: other_chunks) ++ [RecvRaises ValueError])
    (init 0) =
  run ascii_runtime quiet_world
    [Received (join (first_chunk :: other_chunks)); RecvRaises ValueError]
    (init 0).
Proof.
  apply (SessionLaws.chunking_does_not_matter ascii_runtime quiet_world
           first_chunk other_chunks [RecvRaises ValueError] (init 0)).
  exact chunks_have_text.
Defined.

Lemma buffer_is_unterminated_tail_witness :
  exists ss' self',
    run ascii_runtime quiet_world (map Received (first_chunk :: other_chunks))
      (init 0) = (inr ss', self') /\
    buf ss' = unterminated (join (first_chunk :: other_chunks)) /\
    split_newline (buf ss') = None /\
    is_open ss' = true.
Proof.
  apply (SessionLaws.buffer_is_unterminated_tail ascii_runtime quiet_world
           first_chunk other_chunks (init 0)).
  exact chunks_have_text.
Defined.

Lemma one_response_per_frame_witness :
  exists ss' self',
    run ascii_runtime quiet_world (map Received (first_chunk :: other_chunks))
      (init 0) = (inr ss', self') /\
    handled ss' =
      List.length (frames ascii_runtime (join (first_chunk :: other_chunks))) /\
    ((forall n, send_fails quiet_world n = false) ->
     List.length (outbox ss') =
       List.length (frames ascii_runtime
                      (join (first_chunk :: other_chunks)))).
Proof.
  apply (SessionLaws.one_response_per_frame ascii_runtime quiet_world
           first_chunk other_chunks (init 0)).
  exact chunks_have_text.
Defined.

Lemma nothing_after_close_witness :
  run ascii_runtime quiet_world
    ([Received first_chunk] ++ Received EmptyString :: [Received frame_foo])%list
    (init 0) =
  run ascii_runtime quiet_world
    ([Received first_chunk] ++ [Received EmptyString])%list (init 0).
Proof.
  apply (SessionLaws.nothing_after_close ascii_runtime quiet_world
           [Received first_chunk] [Received frame_foo]
           (Received EmptyString) (init 0)).
  simpl. intro H. now apply H.
Defined.

Lemma write_failures_are_swallowed_witness :
  exists a b self',
    run ascii_runtime quiet_world
      (map Received (first_chunk :: other_chunks)) (init 0) = (inr a, self') /\
    run ascii_runtime deaf_world
      (map Received (first_chunk :: other_chunks)) (init 0) = (inr b, self') /\
    same_progress a b.
Proof.
  apply (SessionLaws.write_failures_are_swallowed ascii_runtime quiet_world
           deaf_world).
  reflexivity.
Defined.

Lemma client_takes_first_line_witness :
  (exists buf' unread,
     _send_recv ascii_runtime (map Received two_chunks ++ []) EmptyString
       = decoded_line ascii_runtime "abc" buf' (map Received unread ++ []) /\
     (buf' ++ join unread)%string = "de") /\
  _send_recv ascii_runtime
    (map Received ["ab"; "c"] ++ RecvRaises ValueError :: [Received "de"])
    EmptyString
  = RecvRaised ValueError (EmptyString ++ join ["ab"; "c"]).
Proof.
  split.
  - apply (ClientLaws.client_takes_first_line ascii_runtime two_chunks []
             EmptyString).
    + repeat (constructor; [vm_compute; discriminate|]). constructor.
    + reflexivity.
  - apply (ClientLaws.client_takes_first_line ascii_runtime ["ab"; "c"]
             [Received "de"] EmptyString).
    + repeat (constructor; [discriminate|]). constructor.
    + reflexivity.
Defined.

Lemma client_raises_when_closed_witness :
  _send_recv ascii_runtime
    (map Received ["ab"] ++ Received EmptyString :: [])%list EmptyString
  = ConnectionError (EmptyString ++ join ["ab"]).
Proof.
  apply (ClientLaws.client_raises_when_closed ascii_runtime ["ab"] []
           EmptyString).
  - repeat (constructor; [discriminate|]). constructor.
  - reflexivity.
Defined.

Lemma bench_spins_when_closed_witness :
  send_recv ascii_runtime 7 closing_socket 2 "x" = None.
Proof.
  apply (ClientLaws.bench_spins_when_closed ascii_runtime closing_socket 2
           "x" 7).
  - reflexivity.
  - intros j Hj. destruct j as [|[|j]]; [lia|lia|reflexivity].
Defined.

Lemma bench_takes_first_line_witness :
  send_recv ascii_runtime 5 closing_socket 0 EmptyString =
  Some match json_loads ascii_runtime "abc" with
       | Some v => BenchReturned v
       | None => BenchDecodeRaises
       end.
Proof.
  apply (ClientLaws.bench_takes_first_line ascii_runtime 2 closing_socket 0
           EmptyString "abc" "de" 5).
  - reflexivity.
  - lia.
Defined.

Lemma benchmark_counts_overlap_witness :
  let (total_ok, total_err) := totals two_runs in
  (total_ok + total_err =
   fold_right Nat.add O (map (fun r => List.length (rounds r)) two_runs)
   + fold_right Nat.add O (map (fun r => not_ok (rounds r)) two_runs))%nat.
Proof.
  apply (ClientLaws.benchmark_counts_overlap two_runs).
  repeat constructor.
Defined.

End MoreChecks.
